(** * ArduinoMusicLab: a shallow embedding of the sketch and its playback engine

    The sketch targets the Arduino Uno (AVR): [byte] and [uint8_t] are 8-bit
    unsigned, [int] is 16-bit signed (the tempo table and the data pointers
    are fetched with [pgm_read_word]) and [unsigned long] is 32-bit unsigned.
    Integers are modelled as [Z] with the wrap-around written out.

    Global variables of the sketch and the devices it drives (serial line,
    character display, clock) live in one [state] record that every function
    threads explicitly.  The environment (what the push button reports on each
    [btnRot.tick()], which encoder interrupts fire during each [delay()]) is a
    pair of input queues held in the same record. *)

From Stdlib Require Import ZArith List String Ascii Lia Bool.
From stdpp Require Import base list.
Import ListNotations.
Open Scope Z_scope.

(** ** Machine integers *)

Module MachineInt.

(** Conversion to [byte] / [uint8_t]. *)
Definition wrap_byte (z : Z) : Z := z mod 256.

(** Conversion to the 16-bit signed [int] of the AVR. *)
Definition wrap_int (z : Z) : Z := (z + 32768) mod 65536 - 32768.

(** Conversion to the 32-bit [unsigned long]. *)
Definition wrap_ulong (z : Z) : Z := z mod 4294967296.

Definition is_byte (z : Z) : Prop := 0 <= z <= 255.

(** C's logical negation, stored back into a [byte]. *)
Definition lnot (z : Z) : Z := if z =? 0 then 1 else 0.

End MachineInt.
Import MachineInt.

(** ** Faults and the result type of fallible code

    Two things in the sketch have no defined outcome: the division by [tempo]
    in [pause] when the tempo is zero, and a flash read through an index or a
    pointer that has left its table.  Both are reported as faults. *)

Inductive fault : Type :=
| DivisionByZero
| ReadOutOfBounds.

Inductive result (A : Type) : Type :=
| Ok (a : A)
| Fault (f : fault).
Arguments Ok {A} a.
Arguments Fault {A} f.

Definition bind {A B : Type} (r : result A) (k : A -> result B) : result B :=
  match r with
  | Ok a => k a
  | Fault f => Fault f
  end.

Notation "'let*' x := r 'in' k" := (bind r (fun x => k))
  (at level 10, x name, r at level 100, k at level 200).

Definition of_option {A : Type} (o : option A) : result A :=
  match o with
  | Some a => Ok a
  | None => Fault ReadOutOfBounds
  end.

(** ** Environment events *)

(** What one call of [btnRot.tick()] (OneButton) reports: nothing, a click
    (the callback attached with [attachClick]) or the start of a long press
    (the callback attached with [attachLongPressStart]). *)
Inductive ButtonEvent : Type :=
| NoEvent
| Click
| LongPressStart.

(** A rising edge on one of the two encoder pins: external interrupt 0 runs
    [PinA], external interrupt 1 runs [PinB]; [irqPIND] is the value of the
    input port [PIND] at that moment. *)
Inductive Pin : Type := IntA | IntB.

Record Irq : Type := mkIrq { irqPin : Pin; irqPIND : Z }.

(** ** The character display

    The visible window of the LiquidCrystal_I2C device: LCD_ROW_COUNT rows of
    LCD_COL_COUNT characters and a cursor.  A character written right of the
    window moves the cursor and leaves the window as it is. *)

Record Lcd : Type := mkLcd {
  lcdCol : nat;
  lcdRow : nat;
  lcdText : list (list ascii)
}.

Definition lcd_setCursor (col row : Z) (d : Lcd) : Lcd :=
  {| lcdCol := Z.to_nat col; lcdRow := Z.to_nat row; lcdText := lcdText d |}.

Definition lcd_write (ch : ascii) (d : Lcd) : Lcd :=
  {| lcdCol := S (lcdCol d); lcdRow := lcdRow d;
     lcdText := alter (fun r => <[lcdCol d := ch]> r) (lcdRow d) (lcdText d) |}.

Definition lcd_print (s : string) (d : Lcd) : Lcd :=
  fold_left (fun d ch => lcd_write ch d) (list_ascii_of_string s) d.

Definition lcd_blank (rows cols : Z) : Lcd :=
  {| lcdCol := 0; lcdRow := 0;
     lcdText := replicate (Z.to_nat rows) (replicate (Z.to_nat cols) " "%char) |}.

(** ** Program and device state *)

Record state : Type := mkState {
  (* globals of the sketch *)
  songPlaying : Z;        (* byte *)
  songDataPtr : Z;        (* offset into songData[songIndex] *)
  tempo : Z;              (* int *)
  songIndex : Z;          (* int *)
  rotaryCount : Z;        (* volatile int *)
  rotaryChanged : Z;      (* byte *)
  rotaryDisabled : Z;     (* byte *)
  aFlag : Z;              (* volatile byte *)
  bFlag : Z;              (* volatile byte *)
  reading : Z;            (* volatile byte *)
  (* devices *)
  serialOut : list ascii;         (* every character written to Serial *)
  lcd : Lcd;                      (* the display *)
  millis : Z;                     (* time spent in delay(), in ms *)
  (* environment *)
  btnIn : list ButtonEvent;       (* outcome of each coming btnRot.tick() *)
  irqIn : list (list Irq)         (* interrupts raised during each coming delay() *)
}.


(** Assignment to one field. *)

Definition set_songPlaying (v : Z) (st : state) : state :=
  {| songPlaying := v; songDataPtr := songDataPtr st; tempo := tempo st;
     songIndex := songIndex st; rotaryCount := rotaryCount st;
     rotaryChanged := rotaryChanged st; rotaryDisabled := rotaryDisabled st;
     aFlag := aFlag st; bFlag := bFlag st; reading := reading st;
     serialOut := serialOut st; lcd := lcd st; millis := millis st; btnIn := btnIn st;
     irqIn := irqIn st |}.

Definition set_songDataPtr (v : Z) (st : state) : state :=
  {| songPlaying := songPlaying st; songDataPtr := v; tempo := tempo st;
     songIndex := songIndex st; rotaryCount := rotaryCount st;
     rotaryChanged := rotaryChanged st; rotaryDisabled := rotaryDisabled st;
     aFlag := aFlag st; bFlag := bFlag st; reading := reading st;
     serialOut := serialOut st; lcd := lcd st; millis := millis st; btnIn := btnIn st;
     irqIn := irqIn st |}.

Definition set_tempo (v : Z) (st : state) : state :=
  {| songPlaying := songPlaying st; songDataPtr := songDataPtr st; tempo := v;
     songIndex := songIndex st; rotaryCount := rotaryCount st;
     rotaryChanged := rotaryChanged st; rotaryDisabled := rotaryDisabled st;
     aFlag := aFlag st; bFlag := bFlag st; reading := reading st;
     serialOut := serialOut st; lcd := lcd st; millis := millis st; btnIn := btnIn st;
     irqIn := irqIn st |}.

Definition set_songIndex (v : Z) (st : state) : state :=
  {| songPlaying := songPlaying st; songDataPtr := songDataPtr st; tempo := tempo st;
     songIndex := v; rotaryCount := rotaryCount st; rotaryChanged := rotaryChanged st;
     rotaryDisabled := rotaryDisabled st; aFlag := aFlag st; bFlag := bFlag st;
     reading := reading st; serialOut := serialOut st; lcd := lcd st;
     millis := millis st; btnIn := btnIn st; irqIn := irqIn st |}.

Definition set_rotaryCount (v : Z) (st : state) : state :=
  {| songPlaying := songPlaying st; songDataPtr := songDataPtr st; tempo := tempo st;
     songIndex := songIndex st; rotaryCount := v; rotaryChanged := rotaryChanged st;
     rotaryDisabled := rotaryDisabled st; aFlag := aFlag st; bFlag := bFlag st;
     reading := reading st; serialOut := serialOut st; lcd := lcd st;
     millis := millis st; btnIn := btnIn st; irqIn := irqIn st |}.

Definition set_rotaryChanged (v : Z) (st : state) : state :=
  {| songPlaying := songPlaying st; songDataPtr := songDataPtr st; tempo := tempo st;
     songIndex := songIndex st; rotaryCount := rotaryCount st; rotaryChanged := v;
     rotaryDisabled := rotaryDisabled st; aFlag := aFlag st; bFlag := bFlag st;
     reading := reading st; serialOut := serialOut st; lcd := lcd st;
     millis := millis st; btnIn := btnIn st; irqIn := irqIn st |}.

Definition set_rotaryDisabled (v : Z) (st : state) : state :=
  {| songPlaying := songPlaying st; songDataPtr := songDataPtr st; tempo := tempo st;
     songIndex := songIndex st; rotaryCount := rotaryCount st;
     rotaryChanged := rotaryChanged st; rotaryDisabled := v; aFlag := aFlag st;
     bFlag := bFlag st; reading := reading st; serialOut := serialOut st;
     lcd := lcd st; millis := millis st; btnIn := btnIn st; irqIn := irqIn st |}.

Definition set_aFlag (v : Z) (st : state) : state :=
  {| songPlaying := songPlaying st; songDataPtr := songDataPtr st; tempo := tempo st;
     songIndex := songIndex st; rotaryCount := rotaryCount st;
     rotaryChanged := rotaryChanged st; rotaryDisabled := rotaryDisabled st;
     aFlag := v; bFlag := bFlag st; reading := reading st; serialOut := serialOut st;
     lcd := lcd st; millis := millis st; btnIn := btnIn st; irqIn := irqIn st |}.

Definition set_bFlag (v : Z) (st : state) : state :=
  {| songPlaying := songPlaying st; songDataPtr := songDataPtr st; tempo := tempo st;
     songIndex := songIndex st; rotaryCount := rotaryCount st;
     rotaryChanged := rotaryChanged st; rotaryDisabled := rotaryDisabled st;
     aFlag := aFlag st; bFlag := v; reading := reading st; serialOut := serialOut st;
     lcd := lcd st; millis := millis st; btnIn := btnIn st; irqIn := irqIn st |}.

Definition set_reading (v : Z) (st : state) : state :=
  {| songPlaying := songPlaying st; songDataPtr := songDataPtr st; tempo := tempo st;
     songIndex := songIndex st; rotaryCount := rotaryCount st;
     rotaryChanged := rotaryChanged st; rotaryDisabled := rotaryDisabled st;
     aFlag := aFlag st; bFlag := bFlag st; reading := v; serialOut := serialOut st;
     lcd := lcd st; millis := millis st; btnIn := btnIn st; irqIn := irqIn st |}.

Definition set_serialOut (v : list ascii) (st : state) : state :=
  {| songPlaying := songPlaying st; songDataPtr := songDataPtr st; tempo := tempo st;
     songIndex := songIndex st; rotaryCount := rotaryCount st;
     rotaryChanged := rotaryChanged st; rotaryDisabled := rotaryDisabled st;
     aFlag := aFlag st; bFlag := bFlag st; reading := reading st; serialOut := v;
     lcd := lcd st; millis := millis st; btnIn := btnIn st; irqIn := irqIn st |}.

Definition set_lcd (v : Lcd) (st : state) : state :=
  {| songPlaying := songPlaying st; songDataPtr := songDataPtr st; tempo := tempo st;
     songIndex := songIndex st; rotaryCount := rotaryCount st;
     rotaryChanged := rotaryChanged st; rotaryDisabled := rotaryDisabled st;
     aFlag := aFlag st; bFlag := bFlag st; reading := reading st;
     serialOut := serialOut st; lcd := v; millis := millis st; btnIn := btnIn st;
     irqIn := irqIn st |}.

Definition set_millis (v : Z) (st : state) : state :=
  {| songPlaying := songPlaying st; songDataPtr := songDataPtr st; tempo := tempo st;
     songIndex := songIndex st; rotaryCount := rotaryCount st;
     rotaryChanged := rotaryChanged st; rotaryDisabled := rotaryDisabled st;
     aFlag := aFlag st; bFlag := bFlag st; reading := reading st;
     serialOut := serialOut st; lcd := lcd st; millis := v; btnIn := btnIn st;
     irqIn := irqIn st |}.

Definition set_btnIn (v : list ButtonEvent) (st : state) : state :=
  {| songPlaying := songPlaying st; songDataPtr := songDataPtr st; tempo := tempo st;
     songIndex := songIndex st; rotaryCount := rotaryCount st;
     rotaryChanged := rotaryChanged st; rotaryDisabled := rotaryDisabled st;
     aFlag := aFlag st; bFlag := bFlag st; reading := reading st;
     serialOut := serialOut st; lcd := lcd st; millis := millis st; btnIn := v;
     irqIn := irqIn st |}.

Definition set_irqIn (v : list (list Irq)) (st : state) : state :=
  {| songPlaying := songPlaying st; songDataPtr := songDataPtr st; tempo := tempo st;
     songIndex := songIndex st; rotaryCount := rotaryCount st;
     rotaryChanged := rotaryChanged st; rotaryDisabled := rotaryDisabled st;
     aFlag := aFlag st; bFlag := bFlag st; reading := reading st;
     serialOut := serialOut st; lcd := lcd st; millis := millis st; btnIn := btnIn st;
     irqIn := v |}.

(** ** Constants of the sketch *)

Definition PLAY_DEBUG_MODE : Z := 0.
Definition LCD_ROW_COUNT : Z := 2.
Definition LCD_COL_COUNT : Z := 16.
Definition SONG_COUNT : Z := 12.
Definition slaveAddr : Z := 0.
Definition rotaryMax : Z := SONG_COUNT - 1.

(** The note names used in the song tables ([#define c 0x80] ...). *)
Module Note.
Definition c : Z := 0x80.
Definition d : Z := 0x82.
Definition e : Z := 0x84.
Definition f : Z := 0x85.
Definition g : Z := 0x87.
Definition a : Z := 0x89.
Definition b : Z := 0x8B.
Definition C : Z := 0x8C.
End Note.

(** ** The song catalog (PROGMEM tables) *)

Module Catalog.
Import Note.

Definition songTitle0 : string := "Scale".
Definition songData0 : list Z :=
  [ c; 4; d; 4; e; 4; f; 4; g; 4; a; 4; b; 4; C; 4; 0 ].
Definition songTempo0 : Z := 150.

Definition songTitle1 : string := "Chords".
Definition songData1 : list Z :=
  [ c; e; g; C; 4; c; f; a; C; 4; c; e; g; C; 4; d; f; g; b; 4; c; e; g; C; 4; 0 ].
Definition songTempo1 : Z := 120.

Definition songTitle2 : string := "Do Re Mi".
Definition songData2 : list Z :=
  [ c; 6; d; 2; e; 6; c; 2; e; 4; c; 4; e; 8; d; 6; e; 2; f; 2; f; 2; e; 2; d; 2; f;
    16; e; 6; f; 2; g; 6; e; 2; g; 4; e; 4; g; 8; f; 6; g; 2; a; 2; a; 2; g; 2; f; 2;
    a; 16; 0 ].
Definition songTempo2 : Z := 150.

Definition songTitle3 : string := "Grieg Morning".
Definition songData3 : list Z :=
  [ g; 4; e; 4; d; 4; c; 4; d; 4; e; 4; g; 4; e; 4; d; 4; c; 4; d; 2; e; 2; d; 2; e;
    2; g; 4; e; 4; g; 4; a; 4; e; 4; a; 4; g; 4; e; 4; d; 4; c; 12; g; 4; e; 4; d; 4;
    c; 4; d; 4; e; 4; g; 4; e; 4; d; 4; c; 4; d; 2; e; 2; d; 2; e; 2; g; 4; e; 4; g;
    4; a; 4; e; 4; a; 4; b; 4; g; 4; b; 4; C; 0 ].
Definition songTempo3 : Z := 150.

Definition songTitle4 : string := "Old MacDonald".
Definition songData4 : list Z :=
  [ C; 4; C; 4; C; 4; g; 4; a; 4; a; 4; g; 8; e; 4; e; 4; d; 4; d; 4; c; 12; g; 4; C;
    4; C; 4; C; 4; g; 4; a; 4; a; 4; g; 8; e; 4; e; 4; d; 4; d; 4; c; 12; g; 2; g; 2;
    C; 4; C; 4; C; 4; g; 2; g; 2; C; 4; C; 4; C; 8; C; 2; C; 2; C; 4; C; 2; C; 2; C;
    4; C; 2; C; 2; C; 2; C; 2; C; 4; C; 4; C; 4; C; 4; C; 4; g; 4; a; 4; a; 4; g; 8;
    e; 4; e; 4; d; 4; d; 4; c; 12; 0 ].
Definition songTempo4 : Z := 200.

Definition songTitle5 : string := "Itsy Bitsy Spidr".
Definition songData5 : list Z :=
  [ g; 2; c; 3; c; 1; c; 3; d; 1; e; 4; e; 3; e; 1; d; 3; c; 1; d; 3; e; 1; c; 8; e;
    4; e; 3; f; 1; g; 4; g; 4; f; 3; e; 1; f; 3; g; 1; e; 8; c; 4; c; 3; d; 1; e; 4;
    e; 4; d; 3; c; 1; d; 3; e; 1; c; 4; g; 3; g; 1; c; 3; c; 1; c; 3; d; 1; e; 4; e;
    3; e; 1; d; 3; c; 1; d; 3; e; 1; c; 8; 0 ].
Definition songTempo5 : Z := 120.

Definition songTitle6 : string := "Ode to Joy".
Definition songData6 : list Z :=
  [ e; 4; e; 4; f; 4; g; 4; g; 4; f; 4; e; 4; d; 4; c; 4; c; 4; d; 4; e; 4; e; 6; d;
    2; d; 8; e; 4; e; 4; f; 4; g; 4; g; 4; f; 4; e; 4; d; 4; c; 4; c; 4; d; 4; e; 4;
    d; 6; c; 2; c; 8; d; 4; d; 4; e; 4; c; 4; d; 4; e; 2; f; 2; e; 4; c; 4; d; 4; e;
    2; f; 2; e; 4; d; 4; c; 4; d; 4; g; 8; e; 4; e; 4; f; 4; g; 4; g; 4; f; 4; e; 4;
    d; 4; c; 4; c; 4; d; 4; e; 4; d; 6; c; 2; c; 8; 0 ].
Definition songTempo6 : Z := 160.

Definition songTitle7 : string := "Twinkle Star".
Definition songData7 : list Z :=
  [ c; 4; c; 4; g; 4; g; 4; a; 4; a; 4; g; 8; f; 4; f; 4; e; 4; e; 4; d; 4; d; 4; c;
    8; g; 4; g; 4; f; 4; f; 4; e; 4; e; 4; d; 8; g; 4; g; 4; f; 4; f; 4; e; 4; e; 4;
    d; 8; c; 4; c; 4; g; 4; g; 4; a; 4; a; 4; g; 8; f; 4; f; 4; e; 4; e; 4; d; 4; d;
    4; c; 8; 0 ].
Definition songTempo7 : Z := 150.

Definition songTitle8 : string := "Water Music".
Definition songData8 : list Z :=
  [ 8; c; 8; d; 8; e; 4; c; 8; d; 4; e; 4; c; 4; d; 4; g; 8; d; 4; e; 4; d; 2; c; 2;
    d; 4; g; 8; d; 4; e; 4; d; 2; c; 2; d; 12; e; g; 4; e; g; 4; e; g; 4; e; g; 4; f;
    2; e; 2; f; 4; d; f; 4; d; f; 4; d; f; 4; d; f; 4; e; 2; d; 2; e; 4; e; g; 4; e;
    g; 4; e; g; 4; e; g; 4; f; 2; e; 2; f; 4; d; f; 4; d; f; 4; d; f; 4; f; 12; g; 4;
    e; c; 4; d; 4; e; c; 4; f; 4; d; 12; c; 4; c; 12; e; g; 4; e; g; 4; e; g; 4; f;
    d; 4; g; 2; f; 2; e; c; 4; g; e; 4; f; d; 4; e; c; 4; e; c; 4; d; 2; c; 2; d; 4;
    e; g; 4; e; g; 4; e; g; 4; f; d; 4; g; 2; f; 2; e; c; 4; g; e; 4; f; d; 4; e; c;
    4; e; c; 4; d; 2; c; 2; d; 4; e; g; 4; e; g; 4; e; g; 4; e; g; 4; f; 2; e; 2; f;
    4; d; f; 4; d; f; 4; d; f; 4; d; f; 12; g; 4; e; c; 4; d; 4; e; c; 4; f; 4; d;
    12; c; 4; c; 0 ].
Definition songTempo8 : Z := 200.

Definition songTitle9 : string := "Vivaldi Spring".
Definition songData9 : list Z :=
  [ 12; c; 4; c; e; 4; c; e; 4; c; e; 4; d; 2; c; 2; e; g; 12; g; 2; f; 2; c; e; 4;
    c; e; 4; c; e; 4; d; 2; c; 2; e; g; 12; g; 2; f; 2; c; e; 4; f; 2; g; 2; d; f; 4;
    c; e; 4; d; 12; c; 4; c; e; 4; c; e; 4; c; e; 4; d; 2; c; 2; e; g; 12; g; 2; f;
    2; c; e; 4; c; e; 4; c; e; 4; d; 2; c; 2; e; g; 12; g; 2; f; 2; c; e; 4; f; 2; g;
    2; d; f; 4; c; e; 4; d; 12; c; 4; e; g; 4; f; 2; e; 2; f; 4; g; 4; f; a; 4; e; g;
    8; c; 4; e; g; 4; f; 2; e; 2; f; 4; g; 4; f; a; 4; e; g; 8; c; 4; f; a; 4; e; g;
    8; f; 4; e; 4; d; 2; c; 2; d; 8; c; 12; c; 4; e; g; 4; f; 2; e; 2; f; 4; g; 4; f;
    a; 4; e; g; 8; c; 4; e; g; 4; f; 2; e; 2; f; 4; g; 4; f; a; 4; e; g; 8; c; 4; f;
    a; 4; e; g; 8; f; 4; e; 4; d; 2; c; 2; d; 8; c; 0 ].
Definition songTempo9 : Z := 180.

Definition songTitle10 : string := "Oh Susanna".
Definition songData10 : list Z :=
  [ 6; c; 1; d; 1; e; 2; g; 2; g; 2; a; 2; g; 2; e; 2; c; 3; d; 1; e; 2; e; 2; d; 2;
    c; 2; d; 6; c; 1; d; 1; e; 2; g; 2; g; 3; a; 1; g; 2; e; 2; c; 3; d; 1; e; 2; e;
    2; d; 2; d; 2; c; 6; c; 1; d; 1; e; 2; g; 2; g; 3; a; 1; g; 2; e; 2; c; 3; d; 1;
    e; 2; e; 2; d; 2; c; 2; d; 6; c; 1; d; 1; e; 2; g; 2; g; 2; a; 2; g; 2; e; 2; c;
    3; d; 1; e; 2; e; 2; d; 2; d; 2; c; 8; f; 4; f; 4; a; c; 2; a; 4; a; 2; g; 2; g;
    2; e; 2; c; 2; d; 6; c; 1; d; 1; e; 2; g; 2; g; 2; a; 2; g; 2; e; 2; c; 3; d; 1;
    e; 2; e; 2; d; 2; d; 2; c; 0 ].
Definition songTempo10 : Z := 120.

Definition songTitle11 : string := "Over the River".
Definition songData11 : list Z :=
  [ e; g; 2; e; g; 2; e; g; 2; e; g; 2; c; e; 2; d; f; 2; e; g; 4; e; g; 2; e; g; 4;
    e; g; 2; f; C; 4; f; C; 2; f; b; 4; f; a; 2; e; g; 10; e; g; 2; f; 4; f; 2; f; 4;
    f; 2; c; e; 4; c; e; 2; c; e; 4; c; e; 2; c; d; 4; c; d; 2; c; d; 4; c; e; 2; d;
    6; d; g; 6; e; g; 2; e; g; 2; e; g; 2; e; g; 2; c; e; 2; d; f; 2; e; g; 4; e; g;
    2; e; g; 4; e; g; 2; f; C; 2; f; C; 2; f; C; 2; f; b; 4; f; a; 2; e; g; 10; e; g;
    2; c; C; 4; c; C; 2; c; b; 4; c; a; 2; c; g; 4; c; e; 2; c; 4; d; 2; c; e; 4; f;
    2; e; 4; d; 2; c; 0 ].
Definition songTempo11 : Z := 150.

Definition songTitles : list string :=
  [ songTitle0; songTitle1; songTitle2; songTitle3; songTitle4; songTitle5;
    songTitle6; songTitle7; songTitle8; songTitle9; songTitle10; songTitle11 ].

Definition songData : list (list Z) :=
  [ songData0; songData1; songData2; songData3; songData4; songData5;
    songData6; songData7; songData8; songData9; songData10; songData11 ].

Definition songTempos : list Z :=
  [ songTempo0; songTempo1; songTempo2; songTempo3; songTempo4; songTempo5;
    songTempo6; songTempo7; songTempo8; songTempo9; songTempo10; songTempo11 ].

End Catalog.
Import Catalog.

(** [pgm_read_word(&table[i])]: a read outside the table is a fault. *)
Definition pgm_read {A : Type} (table : list A) (i : Z) : result A :=
  if i <? 0 then Fault ReadOutOfBounds else of_option (table !! Z.to_nat i).

(** ** Devices *)

(** *** Serial line *)

Definition Serial_write (s : list ascii) (st : state) : state :=
  set_serialOut (serialOut st ++ s) st.

Definition Serial_print (s : string) (st : state) : state :=
  Serial_write (list_ascii_of_string s) st.

Definition CRLF : list ascii := [ascii_of_nat 13; ascii_of_nat 10].

Definition Serial_println (s : string) (st : state) : state :=
  Serial_write CRLF (Serial_print s st).

(** The digit loop of Arduino's [Print::printNumber]: digits are produced from
    the least significant one, at least one digit, into a buffer of
    [8 * sizeof(long)] characters. *)
Definition digitChar (v : Z) : ascii :=
  if v <? 10 then ascii_of_nat (Z.to_nat (v + 48))
  else ascii_of_nat (Z.to_nat (v + 65 - 10)).

Fixpoint printNumber_loop (room : nat) (n base : Z) (buf : list ascii) : list ascii :=
  match room with
  | O => buf
  | S room' =>
      let buf := digitChar (n mod base) :: buf in
      let n := n / base in
      if n =? 0 then buf else printNumber_loop room' n base buf
  end.

Definition printNumber (n base : Z) : list ascii :=
  printNumber_loop 32 (wrap_ulong n) (if base <? 2 then 10 else base) [].

Definition HEX : Z := 16.

Definition Serial_print_num (n base : Z) (st : state) : state :=
  Serial_write (printNumber n base) st.

(** ** Rotary encoder: rotation and click handlers *)

(** [rotaryUp()]: one detent clockwise. *)
Definition rotaryUp (st : state) : state :=
  let st := set_rotaryCount (wrap_int (rotaryCount st + 1)) st in
  let st := if rotaryCount st >? rotaryMax then set_rotaryCount rotaryMax st else st in
  set_rotaryChanged 1 st.

(** [rotaryDown()]: one detent counter-clockwise. *)
Definition rotaryDown (st : state) : state :=
  let st := set_rotaryCount (wrap_int (rotaryCount st - 1)) st in
  let st := if rotaryCount st <? 0 then set_rotaryCount 0 st else st in
  set_rotaryChanged 1 st.

(** [rotaryClick()]: the select switch was pressed. *)
Definition rotaryClick (st : state) : state :=
  set_songPlaying (lnot (songPlaying st)) st.

(** [rotaryLongPress()]: not implemented in the sketch. *)
Definition rotaryLongPress (st : state) : state := st.

(** [PinA()]: interrupt routine of the CLK pin; [PIND] is the port value it
    reads.  [cli()] and [sei()] only mask nested interrupts and carry no state
    of their own here. *)
Definition PinA (PIND : Z) (st : state) : state :=
  if negb (rotaryDisabled st =? 0) then st else
  let st := set_reading (Z.land PIND 0xC) st in
  if (reading st =? 12) && negb (aFlag st =? 0) then
    let st := rotaryUp st in
    let st := set_bFlag 0 st in
    set_aFlag 0 st
  else if reading st =? 4 then set_bFlag 1 st
  else st.

(** [PinB()]: interrupt routine of the DT pin. *)
Definition PinB (PIND : Z) (st : state) : state :=
  if negb (rotaryDisabled st =? 0) then st else
  let st := set_reading (Z.land PIND 0xC) st in
  if (reading st =? 12) && negb (bFlag st =? 0) then
    let st := rotaryDown st in
    let st := set_bFlag 0 st in
    set_aFlag 0 st
  else if reading st =? 8 then set_aFlag 1 st
  else st.

Definition interrupt (i : Irq) (st : state) : state :=
  match irqPin i with
  | IntA => PinA (irqPIND i) st
  | IntB => PinB (irqPIND i) st
  end.

(** [delay(ms)]: time passes; the interrupts raised meanwhile run their
    routines in order of arrival. *)
Definition delay (ms : Z) (st : state) : state :=
  let st := set_millis (millis st + ms) st in
  match irqIn st with
  | [] => st
  | irqs :: later => fold_left (fun s i => interrupt i s) irqs (set_irqIn later st)
  end.

(** [btnRot.tick()]: OneButton polls the switch and runs at most one of the
    attached callbacks. *)
Definition btnRot_tick (st : state) : state :=
  match btnIn st with
  | [] => st
  | ev :: later =>
      let st := set_btnIn later st in
      match ev with
      | NoEvent => st
      | Click => rotaryClick st
      | LongPressStart => rotaryLongPress st
      end
  end.

(** ** Display presenter *)

(** A call on the [lcd] object. *)
Definition on_lcd (f : Lcd -> Lcd) (st : state) : state := set_lcd (f (lcd st)) st.

(** [lcdPrintProgStr()]: the title, then blanks up to the display width; both
    loop counters are bytes. *)
Definition lcdPrintProgStr (str : string) (st : state) : state :=
  let n := wrap_byte (Z.of_nat (String.length str)) in
  let st := on_lcd (fold_left (fun d ch => lcd_write ch d)
                      (take (Z.to_nat n) (list_ascii_of_string str))) st in
  on_lcd (fold_left (fun d ch => lcd_write ch d)
            (replicate (Z.to_nat (LCD_COL_COUNT - n)) " "%char)) st.

Definition printSelectSong (st : state) : state :=
  let st := on_lcd (lcd_setCursor 0 0) st in
  on_lcd (lcd_print "Select a Song   ") st.

Definition printSongPlaying (st : state) : state :=
  let st := on_lcd (lcd_setCursor 0 0) st in
  on_lcd (lcd_print "--- Playing  ---") st.

Definition printSelectedSong (st : state) : result state :=
  let st := set_songIndex (rotaryCount st) st in
  let st := set_rotaryDisabled 1 st in
  let st := on_lcd (lcd_setCursor 0 1) st in
  let* title := pgm_read songTitles (songIndex st) in
  let st := lcdPrintProgStr title st in
  let st := set_rotaryDisabled 0 st in
  Ok (set_rotaryChanged 0 st).

(** ** Encoding codec and playback engine *)

(** [noteToMotorShieldChannel()]: the [switch] over the eight note codes. *)
Definition noteToMotorShieldChannel (note : Z) : Z :=
  if note =? Note.c then 0
  else if note =? Note.d then 1
  else if note =? Note.e then 2
  else if note =? Note.f then 3
  else if note =? Note.g then 4
  else if note =? Note.a then 5
  else if note =? Note.b then 6
  else if note =? Note.C then 7
  else 0x7F.

(** [sendMotorShieldCommand()]: the frame [<aabb>] on the serial line. *)
Definition sendMotorShieldCommand (boardNum pdata : Z) (st : state) : state :=
  let st := Serial_print "<" st in
  let st := if boardNum <? 0x10 then Serial_print "0" st else st in
  let st := Serial_print_num boardNum HEX st in
  let st := if pdata <? 0x10 then Serial_print "0" st else st in
  let st := Serial_print_num pdata HEX st in
  Serial_print ">" st.

(** [playNoteSerialTest()]: the debug output, compiled in when
    PLAY_DEBUG_MODE is set. *)
Definition playNoteSerialTest (note : Z) (st : state) : state :=
  let st :=
    if note =? Note.c then Serial_print "C5" st
    else if note =? Note.d then Serial_print "D5" st
    else if note =? Note.e then Serial_print "E5" st
    else if note =? Note.f then Serial_print "F5" st
    else if note =? Note.g then Serial_print "G5" st
    else if note =? Note.a then Serial_print "A5" st
    else if note =? Note.b then Serial_print "B5" st
    else if note =? Note.C then Serial_print "C6" st
    else st in
  Serial_print " " st.

(** [playNote()]: [1 << ch] is computed as an [int] and passed as [uint8_t]. *)
Definition playNote (note : Z) (st : state) : state :=
  if negb (PLAY_DEBUG_MODE =? 0) then playNoteSerialTest note st
  else
    let ch := noteToMotorShieldChannel note in
    if (ch >=? 0) && (ch <=? 7)
    then sendMotorShieldCommand slaveAddr (wrap_byte (Z.shiftl 1 ch)) st
    else st.

(** The tick count of [pause()]:
    [(unsigned long)num16ths * 120 * 125 / tempo / 20], evaluated in
    [unsigned long] and stored into an [int]. *)
Definition delayTicks (num16ths tempo : Z) : result Z :=
  let t := wrap_ulong tempo in
  if t =? 0 then Fault DivisionByZero
  else Ok (wrap_int (wrap_ulong (wrap_ulong (num16ths * 120) * 125) / t / 20)).

(** The [for] loop of [pause()], [ticks] iterations left. *)
Fixpoint pause_loop (ticks : nat) (st : state) : state :=
  match ticks with
  | O => st
  | S ticks' =>
      let st := btnRot_tick st in
      let st := delay 20 st in
      if songPlaying st =? 0 then st else pause_loop ticks' st
  end.

(** [pause()]: wait the given number of sixteenth notes. *)
Definition pause (num16ths : Z) (st : state) : result state :=
  let* n := delayTicks num16ths (tempo st) in
  Ok (pause_loop (Z.to_nat n) st).

(** [processSongData()]: one byte of song data; returns 0 to stop. *)
Definition processSongData (dataVal : Z) (st : state) : result (Z * state) :=
  if dataVal =? 0 then Ok (0, st) else
  if dataVal >? Note.C then Ok (0, st) else
  if songPlaying st =? 0 then Ok (0, st) else
  let st := if dataVal >=? Note.c then playNote dataVal st else st in
  let* st := if dataVal <? Note.c then pause dataVal st else Ok st in
  Ok (1, st).

(** The loop [while (processSongData(pgm_read_byte(songDataPtr++)));].
    [flash] holds the bytes of the song from [songDataPtr] on; reading on
    after the last byte of the table is a fault. *)
Fixpoint playLoop (flash : list Z) (st : state) : result state :=
  match flash with
  | [] => Fault ReadOutOfBounds
  | dataVal :: flash' =>
      let st := set_songDataPtr (songDataPtr st + 1) st in
      let* r := processSongData dataVal st in
      if fst r =? 0 then Ok (snd r) else playLoop flash' (snd r)
  end.

(** [playSelectedSong()]; the [println] of the empty string sends the line
    end alone. *)
Definition playSelectedSong (st : state) : result state :=
  let st := set_rotaryDisabled 1 st in
  let st := printSongPlaying st in
  let* t := pgm_read songTempos (songIndex st) in
  let st := set_tempo t st in
  let* data := pgm_read songData (songIndex st) in
  let st := set_songDataPtr 0 st in
  let* st := playLoop data st in
  let st := set_songPlaying 0 st in
  let st := Serial_println EmptyString st in
  let st := printSelectSong st in
  Ok (set_rotaryDisabled 0 st).

(** ** Main program *)

(** [loop()]. *)
Definition loop (st : state) : result state :=
  let* st := if negb (songPlaying st =? 0) then playSelectedSong st else Ok st in
  let* st := if negb (rotaryChanged st =? 0) then printSelectedSong st else Ok st in
  let st := btnRot_tick st in
  Ok (delay 100 st).

(** The zero-initialised globals and idle devices at reset, with the inputs
    the environment is going to deliver. *)
Definition power_on (buttons : list ButtonEvent) (irqs : list (list Irq)) : state :=
  {| songPlaying := 0; songDataPtr := 0; tempo := 0; songIndex := 0;
     rotaryCount := 0; rotaryChanged := 0; rotaryDisabled := 0;
     aFlag := 0; bFlag := 0; reading := 0;
     serialOut := []; lcd := lcd_blank LCD_ROW_COUNT LCD_COL_COUNT; millis := 0;
     btnIn := buttons; irqIn := irqs |}.

(** [initializeRotaryEncoder()]: pin modes, interrupt routines and button
    callbacks, then [rotaryDisabled = 0]. *)
Definition initializeRotaryEncoder (st : state) : state := set_rotaryDisabled 0 st.

(** [initializeLcd()]: [lcd.begin()], [lcd.backlight()], [lcd.clear()], then
    the selection headline. *)
Definition initializeLcd (st : state) : state :=
  let st := on_lcd (fun _ => lcd_blank LCD_ROW_COUNT LCD_COL_COUNT) st in
  printSelectSong st.

(** [setup()]; [initizlizeUnusedPins()] and [Serial.begin()] change nothing
    of the state. *)
Definition setup (st : state) : state :=
  let st := initializeRotaryEncoder st in
  let st := initializeLcd st in
  set_rotaryChanged 1 st.

(** [n] rounds of [loop()] after [setup()]. *)
Fixpoint run (n : nat) (st : state) : result state :=
  match n with
  | O => Ok st
  | S n' => let* st := loop st in run n' st
  end.

Definition boot (buttons : list ButtonEvent) (irqs : list (list Irq)) : state :=
  setup (power_on buttons irqs).

(** * Vocabulary of the properties *)

(** ** The encoding as the specification words it

    The sequence events, the byte ranges of the codec, the channel of each
    of the eight defined notes, and the channels a sequence asks to strike:
    one per valid Note event before the first EndOfSong, in sequence order. *)

Module Spec.

Inductive SequenceEvent : Type :=
| Note (code : Z)
| Pause (duration : Z)
| EndOfSong.

Definition decode (b : Z) : SequenceEvent :=
  if b =? 0x00 then EndOfSong
  else if (0x01 <=? b) && (b <=? 0x7F) then Pause b
  else if (0x80 <=? b) && (b <=? 0x8C) then Note b
  else EndOfSong.

Definition channel (code : Z) : option Z :=
  if code =? 0x80 then Some 0        (* C *)
  else if code =? 0x82 then Some 1   (* D *)
  else if code =? 0x84 then Some 2   (* E *)
  else if code =? 0x85 then Some 3   (* F *)
  else if code =? 0x87 then Some 4   (* G *)
  else if code =? 0x89 then Some 5   (* A *)
  else if code =? 0x8B then Some 6   (* B *)
  else if code =? 0x8C then Some 7   (* C, one octave up *)
  else None.

Fixpoint transmissions (data : list Z) : list Z :=
  match data with
  | [] => []
  | b :: rest =>
      match decode b with
      | EndOfSong => []
      | Pause _ => transmissions rest
      | Note code =>
          match channel code with
          | Some ch => ch :: transmissions rest
          | None => transmissions rest
          end
      end
  end.

End Spec.

(** ** Serial protocol *)

(** The wire format of a motor shield command: [<], two hexadecimal digits
    of board address, two of channel mask, [>]. *)
Definition hex2 (v : Z) : list ascii := [digitChar (v / 16); digitChar (v mod 16)].

Definition command_text (addr mask : Z) : list ascii :=
  "<"%char :: hex2 addr ++ hex2 mask ++ [">"%char].

(** The serial text of one command per channel of the list. *)
Definition frames (channels : list Z) : list ascii :=
  concat (map (fun ch => command_text 0 (2 ^ ch)) channels).

Definition scale_wire : list ascii :=
  list_ascii_of_string "<0001><0002><0004><0008><0010><0020><0040><0080>".

(** A channel mask with exactly one bit set, one of the low eight. *)
Definition one_bit (mask : Z) : Prop :=
  exists ch, 0 <= ch <= 7 /\ mask = Z.shiftl 1 ch
             /\ forall i, 0 <= i -> Z.testbit mask i = (i =? ch).

(** Serial traffic made of commands to board 0 with a one-bit mask, and of
    line ends. *)
Inductive wire_ok : list ascii -> Prop :=
| wire_empty : wire_ok []
| wire_command out mask : wire_ok out -> one_bit mask -> wire_ok (out ++ command_text 0 mask)
| wire_newline out : wire_ok out -> wire_ok (out ++ CRLF).

(** ** Notes and song data *)

Definition defined_note (note : Z) : bool :=
  (note =? Note.c) || (note =? Note.d) || (note =? Note.e) || (note =? Note.f)
  || (note =? Note.g) || (note =? Note.a) || (note =? Note.b) || (note =? Note.C).

(** What [playNote()] puts on the wire for a byte routed to it. *)
Definition note_wire (note : Z) : list ascii :=
  if defined_note note
  then command_text 0 (2 ^ noteToMotorShieldChannel note)
  else [].

(** The text a byte that was played adds to the serial line. *)
Definition byte_wire (dataVal : Z) : list ascii :=
  if dataVal >=? Note.c then note_wire dataVal else [].

(** The bytes at which [processSongData()] stops whatever the state. *)
Definition end_byte (dataVal : Z) : bool := (dataVal =? 0) || (dataVal >? Note.C).

Definition has_end (data : list Z) : Prop := Exists (fun b => end_byte b = true) data.

(** The serial text of a song played to its end: the notes before the first
    end byte, in order. *)
Fixpoint song_wire (data : list Z) : list ascii :=
  match data with
  | [] => []
  | b :: rest => if end_byte b then [] else byte_wire b ++ song_wire rest
  end.

Definition is_byteb (z : Z) : bool := (0 <=? z) && (z <=? 255).

(** A song the engine can play: a tempo that is positive (as an [int]) and
    keeps every tick count within an [int], bytes for data, terminator 0 last. *)
Definition playable (t : Z) (data : list Z) : bool :=
  (6 <=? t) && (t <=? 32767) && forallb is_byteb data
  && match last data with Some 0 => true | _ => false end.

(** ** Parts of the state *)

(** Everything that neither the serial line, the clock, the input queues,
    the playback flag nor the data pointer is. *)
Definition frozen (st : state) :=
  (tempo st, songIndex st, rotaryCount st, rotaryChanged st, rotaryDisabled st,
   aFlag st, bFlag st, reading st, lcd st).

Definition beyond_irq (st : state) :=
  (songPlaying st, songDataPtr st, tempo st, songIndex st, rotaryDisabled st,
   serialOut st, lcd st, millis st, btnIn st, irqIn st).

(** The selection index and the index of the displayed song are catalog
    indices. *)
Definition selection_ok (st : state) : Prop :=
  0 <= rotaryCount st <= SONG_COUNT - 1 /\ 0 <= songIndex st <= SONG_COUNT - 1.

(** ** Button input and polling *)

Definition no_click (evs : list ButtonEvent) : Prop := Forall (fun ev => ev <> Click) evs.

(** One round of the polling loop of [pause()]. *)
Definition poll (st : state) : state := delay 20 (btnRot_tick st).

(** ** Display *)

(** The display after [lcd.begin()]: LCD_ROW_COUNT rows of LCD_COL_COUNT
    characters. *)
Definition lcd_ready (d : Lcd) : Prop :=
  exists row0 row1,
    lcdText d = [row0; row1] /\ length row0 = 16%nat /\ length row1 = 16%nat.

Definition top_line_selecting : list ascii := list_ascii_of_string "Select a Song   ".
Definition top_line_playing : list ascii := list_ascii_of_string "--- Playing  ---".

(** ** [playSelectedSong()] in three parts: entry, loop, exit *)

Definition enterPlayback (t : Z) (st : state) : state :=
  set_songDataPtr 0 (set_tempo t (printSongPlaying (set_rotaryDisabled 1 st))).

Definition leavePlayback (st : state) : state :=
  set_rotaryDisabled 0 (printSelectSong (Serial_println EmptyString (set_songPlaying 0 st))).

(** ** Proof automation *)

Ltac case_ifs :=
  repeat match goal with
         | |- context [if ?c then _ else _] => destruct c
         end.

(** ** Reading a command frame back

    The value of an upper-case hexadecimal digit, and the board address and
    channel mask a six-character frame [<aabb>] stands for. *)

Definition hexDigitValue (ch : ascii) : option Z :=
  let n := Z.of_nat (nat_of_ascii ch) in
  if (48 <=? n) && (n <=? 57) then Some (n - 48)
  else if (65 <=? n) && (n <=? 70) then Some (n - 65 + 10)
  else None.

Definition hexPairValue (hi lo : ascii) : option Z :=
  match hexDigitValue hi, hexDigitValue lo with
  | Some h, Some l => Some (16 * h + l)
  | _, _ => None
  end.

Definition parse_command (frame : list ascii) : option (Z * Z) :=
  match frame with
  | [open; a1; a0; b1; b0; close] =>
      if Ascii.eqb open "<" && Ascii.eqb close ">" then
        match hexPairValue a1 a0, hexPairValue b1 b0 with
        | Some addr, Some mask => Some (addr, mask)
        | _, _ => None
        end
      else None
  | _ => None
  end.

(** ** Playing time

    The ticks a byte of song data waits when it is played at tempo [t], and
    the ticks of a whole sequence up to its first end byte. *)

Definition byte_ticks (t dataVal : Z) : Z :=
  if dataVal <? Note.c then
    match delayTicks dataVal t with
    | Ok n => Z.max 0 n
    | Fault _ => 0
    end
  else 0.

Fixpoint song_ticks (t : Z) (data : list Z) : Z :=
  match data with
  | [] => 0
  | b :: rest => if end_byte b then 0 else byte_ticks t b + song_ticks t rest
  end.

(** ** Text on a display row *)

(** The characters [l] written from column [c] on over a row. *)
Fixpoint overwrite (c : nat) (l row : list ascii) : list ascii :=
  match l with
  | [] => row
  | x :: l' => overwrite (S c) l' (<[c:=x]> row)
  end.

(** A title as a display row: blank-padded, or cut, to LCD_COL_COUNT. *)
Definition title_row (str : string) : list ascii :=
  take 16 (list_ascii_of_string str ++ replicate (16 - String.length str) " "%char).

(** ** What the display shows *)

(** Selection mode with the title of song [songIndex] on row 1. *)
Definition shows_selection (st : state) : Prop :=
  exists title,
    songTitles !! Z.to_nat (songIndex st) = Some title
    /\ lcdText (lcd st) = [top_line_selecting; title_row title].

(** What holds between two rounds of [loop()]: indices in range, rotation
    enabled, a playback flag that is 0 or 1, the selection headline on row 0,
    and on row 1 the title of song [songIndex], which is the selected song
    unless a change of the selection is pending. *)
Definition between_rounds (st : state) : Prop :=
  selection_ok st
  /\ rotaryDisabled st = 0
  /\ (songPlaying st = 0 \/ songPlaying st = 1)
  /\ (exists row1, lcdText (lcd st) = [top_line_selecting; row1] /\ length row1 = 16%nat)
  /\ (rotaryChanged st <> 0 \/ shows_selection st)
  /\ (rotaryChanged st = 0 -> songIndex st = rotaryCount st).

(** ** An idle device *)

(** Nothing playing, nothing sent yet, no click to come, [m] ms on the clock. *)
Definition idle (m : Z) (st : state) : Prop :=
  songPlaying st = 0 /\ serialOut st = [] /\ no_click (btnIn st)
  /\ 0 <= rotaryCount st <= SONG_COUNT - 1 /\ millis st = m.

(** * Properties *)

(** ** The fields playback leaves alone *)

Lemma PinA_disabled PIND st : rotaryDisabled st <> 0 -> PinA PIND st = st.
Proof.
  intros H. unfold PinA.
  destruct (Z.eqb_spec (rotaryDisabled st) 0); [contradiction | reflexivity].
Qed.

Lemma PinB_disabled PIND st : rotaryDisabled st <> 0 -> PinB PIND st = st.
Proof.
  intros H. unfold PinB.
  destruct (Z.eqb_spec (rotaryDisabled st) 0); [contradiction | reflexivity].
Qed.

Lemma interrupt_disabled i st : rotaryDisabled st <> 0 -> interrupt i st = st.
Proof.
  intros H. unfold interrupt.
  destruct (irqPin i); auto using PinA_disabled, PinB_disabled.
Qed.

Lemma interrupts_disabled irqs st :
  rotaryDisabled st <> 0 -> fold_left (fun s i => interrupt i s) irqs st = st.
Proof.
  intros H. induction irqs as [|i irqs IH]; cbn; [reflexivity|].
  rewrite interrupt_disabled by assumption. exact IH.
Qed.

Lemma set_irqIn_id st : set_irqIn (irqIn st) st = st.
Proof. destruct st; reflexivity. Qed.

(** With rotation disabled a delay moves the clock and drops the interrupts
    raised meanwhile. *)
Lemma delay_disabled ms st :
  rotaryDisabled st <> 0 ->
  delay ms st = set_irqIn (tail (irqIn st)) (set_millis (millis st + ms) st).
Proof.
  intros H. unfold delay. cbn.
  destruct (irqIn st) as [|irqs later] eqn:E; cbn.
  - rewrite <- (set_irqIn_id (set_millis _ st)) at 1. cbn. rewrite E. reflexivity.
  - apply interrupts_disabled. exact H.
Qed.

Lemma btnRot_tick_frozen st :
  frozen (btnRot_tick st) = frozen st /\ serialOut (btnRot_tick st) = serialOut st
  /\ millis (btnRot_tick st) = millis st /\ irqIn (btnRot_tick st) = irqIn st
  /\ songDataPtr (btnRot_tick st) = songDataPtr st
  /\ btnIn (btnRot_tick st) = tail (btnIn st).
Proof.
  unfold btnRot_tick. destruct (btnIn st) as [|[] later] eqn:E; cbn;
    repeat split; auto.
Qed.

(** ** What the interrupt routines leave alone *)

Lemma rotaryUp_beyond st : beyond_irq (rotaryUp st) = beyond_irq st.
Proof. unfold rotaryUp; cbn; case_ifs; reflexivity. Qed.

Lemma rotaryDown_beyond st : beyond_irq (rotaryDown st) = beyond_irq st.
Proof. unfold rotaryDown; cbn; case_ifs; reflexivity. Qed.

Lemma interrupt_beyond i st : beyond_irq (interrupt i st) = beyond_irq st.
Proof.
  unfold interrupt, PinA, PinB; destruct (irqPin i); cbn; case_ifs; cbn;
    rewrite ?rotaryUp_beyond, ?rotaryDown_beyond; try reflexivity.
  - change (beyond_irq (set_aFlag 0 (set_bFlag 0 (rotaryUp (set_reading (Z.land (irqPIND i) 12) st))))
            = beyond_irq st).
    transitivity (beyond_irq (rotaryUp (set_reading (Z.land (irqPIND i) 12) st))); [reflexivity|].
    rewrite rotaryUp_beyond. reflexivity.
  - change (beyond_irq (set_aFlag 0 (set_bFlag 0 (rotaryDown (set_reading (Z.land (irqPIND i) 12) st))))
            = beyond_irq st).
    transitivity (beyond_irq (rotaryDown (set_reading (Z.land (irqPIND i) 12) st))); [reflexivity|].
    rewrite rotaryDown_beyond. reflexivity.
Qed.

Lemma interrupts_beyond irqs st :
  beyond_irq (fold_left (fun s i => interrupt i s) irqs st) = beyond_irq st.
Proof.
  revert st. induction irqs as [|i irqs IH]; intros st; cbn; [reflexivity|].
  rewrite IH. apply interrupt_beyond.
Qed.

(** A delay moves the clock, consumes one batch of interrupts and touches
    nothing else outside the encoder variables. *)
Lemma delay_beyond ms st :
  beyond_irq (delay ms st)
  = beyond_irq (set_irqIn (tail (irqIn st)) (set_millis (millis st + ms) st)).
Proof.
  unfold delay. cbn. destruct (irqIn st) as [|irqs later] eqn:E; cbn.
  - unfold beyond_irq; cbn. rewrite E. reflexivity.
  - rewrite interrupts_beyond. reflexivity.
Qed.

Lemma delay_songPlaying ms st : songPlaying (delay ms st) = songPlaying st.
Proof. pose proof (delay_beyond ms st) as H. unfold beyond_irq in H. cbn in H. congruence. Qed.

Lemma delay_btnIn ms st : btnIn (delay ms st) = btnIn st.
Proof. pose proof (delay_beyond ms st) as H. unfold beyond_irq in H. cbn in H. congruence. Qed.

Lemma delay_millis ms st : millis (delay ms st) = millis st + ms.
Proof. pose proof (delay_beyond ms st) as H. unfold beyond_irq in H. cbn in H. congruence. Qed.

Lemma delay_serialOut ms st : serialOut (delay ms st) = serialOut st.
Proof. pose proof (delay_beyond ms st) as H. unfold beyond_irq in H. cbn in H. congruence. Qed.

Lemma delay_tempo ms st : tempo (delay ms st) = tempo st.
Proof. pose proof (delay_beyond ms st) as H. unfold beyond_irq in H. cbn in H. congruence. Qed.

Lemma delay_songIndex ms st : songIndex (delay ms st) = songIndex st.
Proof. pose proof (delay_beyond ms st) as H. unfold beyond_irq in H. cbn in H. congruence. Qed.

Lemma delay_songDataPtr ms st : songDataPtr (delay ms st) = songDataPtr st.
Proof. pose proof (delay_beyond ms st) as H. unfold beyond_irq in H. cbn in H. congruence. Qed.

Lemma delay_rotaryDisabled ms st : rotaryDisabled (delay ms st) = rotaryDisabled st.
Proof. pose proof (delay_beyond ms st) as H. unfold beyond_irq in H. cbn in H. congruence. Qed.

Lemma delay_lcd ms st : lcd (delay ms st) = lcd st.
Proof. pose proof (delay_beyond ms st) as H. unfold beyond_irq in H. cbn in H. congruence. Qed.

Lemma delay_frozen ms st :
  rotaryDisabled st <> 0 -> frozen (delay ms st) = frozen st.
Proof. intros H. rewrite delay_disabled by exact H. reflexivity. Qed.

(** ** The push button *)

Lemma btnRot_tick_no_click st :
  no_click (btnIn st) ->
  songPlaying (btnRot_tick st) = songPlaying st /\ no_click (btnIn (btnRot_tick st)).
Proof.
  unfold btnRot_tick, no_click. intros H.
  destruct (btnIn st) as [|ev later] eqn:E.
  - rewrite E. auto.
  - inversion H; subst. destruct ev; cbn; auto. congruence.
Qed.

Lemma btnRot_tick_click st later :
  btnIn st = Click :: later ->
  songPlaying (btnRot_tick st) = lnot (songPlaying st) /\ btnIn (btnRot_tick st) = later.
Proof. unfold btnRot_tick. intros ->. cbn. auto. Qed.

Lemma poll_frozen st : rotaryDisabled st <> 0 -> frozen (poll st) = frozen st.
Proof.
  intros H. unfold poll. destruct (btnRot_tick_frozen st) as (F & _).
  rewrite delay_frozen; [exact F|].
  unfold frozen in F. congruence.
Qed.

Lemma poll_io st :
  serialOut (poll st) = serialOut st /\ songDataPtr (poll st) = songDataPtr st
  /\ millis (poll st) = millis st + 20 /\ btnIn (poll st) = tail (btnIn st)
  /\ tempo (poll st) = tempo st /\ songIndex (poll st) = songIndex st
  /\ rotaryDisabled (poll st) = rotaryDisabled st
  /\ songPlaying (poll st) = songPlaying (btnRot_tick st).
Proof.
  unfold poll. destruct (btnRot_tick_frozen st) as (F & S & M & _ & P & B).
  unfold frozen in F.
  rewrite delay_serialOut, delay_songDataPtr, delay_millis, delay_btnIn, delay_tempo,
    delay_songIndex, delay_rotaryDisabled, delay_songPlaying.
  repeat split; congruence.
Qed.

Lemma pause_loop_unfold ticks st :
  pause_loop (S ticks) st
  = if songPlaying (poll st) =? 0 then poll st else pause_loop ticks (poll st).
Proof. reflexivity. Qed.

Lemma pause_loop_frozen ticks st :
  rotaryDisabled st <> 0 -> frozen (pause_loop ticks st) = frozen st.
Proof.
  revert st. induction ticks as [|ticks IH]; intros st H; [reflexivity|].
  rewrite pause_loop_unfold. pose proof (poll_frozen st H) as F.
  destruct (songPlaying (poll st) =? 0); [exact F|].
  rewrite IH; [exact F|]. unfold frozen in F. congruence.
Qed.

Lemma pause_loop_io ticks st :
  serialOut (pause_loop ticks st) = serialOut st
  /\ songDataPtr (pause_loop ticks st) = songDataPtr st
  /\ tempo (pause_loop ticks st) = tempo st
  /\ songIndex (pause_loop ticks st) = songIndex st
  /\ rotaryDisabled (pause_loop ticks st) = rotaryDisabled st.
Proof.
  revert st. induction ticks as [|ticks IH]; intros st; [auto 6|].
  rewrite pause_loop_unfold. destruct (poll_io st) as (S & P & _ & _ & T & I & D & _).
  destruct (songPlaying (poll st) =? 0); [auto 6|].
  destruct (IH (poll st)) as (S' & P' & T' & I' & D').
  repeat split; congruence.
Qed.

(** Without a click the loop runs its full count and the flag stays set. *)
Lemma pause_loop_no_click ticks st :
  songPlaying st <> 0 -> no_click (btnIn st) ->
  songPlaying (pause_loop ticks st) = songPlaying st
  /\ no_click (btnIn (pause_loop ticks st))
  /\ millis (pause_loop ticks st) = millis st + 20 * Z.of_nat ticks.
Proof.
  revert st. induction ticks as [|ticks IH]; intros st HP HQ.
  - cbn. repeat split; auto. lia.
  - rewrite pause_loop_unfold.
    destruct (poll_io st) as (_ & _ & M & B & _ & _ & _ & P).
    destruct (btnRot_tick_no_click st HQ) as (P1 & Q1).
    assert (HP' : songPlaying (poll st) = songPlaying st) by congruence.
    assert (HQ' : no_click (btnIn (poll st))).
    { rewrite B. unfold no_click in *. destruct (btnIn st); cbn; [constructor|].
      inversion HQ; assumption. }
    destruct (Z.eqb_spec (songPlaying (poll st)) 0) as [E|_]; [congruence|].
    destruct (IH (poll st)) as (A1 & A2 & A3); [congruence | exact HQ' |].
    repeat split; [congruence | exact A2 | lia].
Qed.

(** A click on tick number [length quietTicks + 1] clears the flag and ends
    the loop in that very round. *)
Lemma pause_loop_click quietTicks later ticks st :
  songPlaying st <> 0 -> no_click quietTicks ->
  btnIn st = quietTicks ++ Click :: later ->
  (length quietTicks < ticks)%nat ->
  songPlaying (pause_loop ticks st) = 0
  /\ btnIn (pause_loop ticks st) = later
  /\ millis (pause_loop ticks st) = millis st + 20 * (Z.of_nat (length quietTicks) + 1).
Proof.
  revert ticks st. induction quietTicks as [|ev quietTicks IH]; intros ticks st HP HQ HB HL.
  - destruct ticks as [|ticks]; [cbn in HL; lia|].
    rewrite pause_loop_unfold.
    destruct (poll_io st) as (_ & _ & M & B & _ & _ & _ & P).
    destruct (btnRot_tick_click st later HB) as (P1 & _).
    assert (E : songPlaying (poll st) = 0).
    { rewrite P, P1. unfold lnot. destruct (Z.eqb_spec (songPlaying st) 0); congruence. }
    rewrite E. cbn [Z.eqb]. rewrite B, HB. cbn. repeat split; auto; lia.
  - destruct ticks as [|ticks]; [cbn in HL; lia|].
    rewrite pause_loop_unfold.
    destruct (poll_io st) as (_ & _ & M & B & _ & _ & _ & P).
    inversion HQ as [|? ? Hev HQ']; subst.
    assert (NC : songPlaying (btnRot_tick st) = songPlaying st).
    { unfold btnRot_tick. rewrite HB. cbn. destruct ev; cbn; congruence. }
    destruct (Z.eqb_spec (songPlaying (poll st)) 0) as [E|_]; [congruence|].
    destruct (IH ticks (poll st)) as (A1 & A2 & A3).
    + congruence.
    + exact HQ'.
    + rewrite B, HB. reflexivity.
    + cbn in HL. lia.
    + repeat split; [exact A1 | exact A2 |]. rewrite A3, M. cbn [length]. lia.
Qed.

(** ** The serial line *)

Lemma Serial_write_nil st : Serial_write [] st = st.
Proof. destruct st; unfold Serial_write; cbn. rewrite app_nil_r. reflexivity. Qed.

Lemma Serial_write_write s1 s2 st :
  Serial_write s2 (Serial_write s1 st) = Serial_write (s1 ++ s2) st.
Proof. destruct st; unfold Serial_write; cbn. rewrite app_assoc. reflexivity. Qed.

Lemma printNumber_byte v :
  is_byte v ->
  (if v <? 0x10 then ["0"%char] else []) ++ printNumber v HEX = hex2 v.
Proof.
  unfold is_byte, printNumber, wrap_ulong, HEX, hex2. intros Hv.
  rewrite Z.mod_small by lia. change (16 <? 2) with false. cbv iota.
  change (printNumber_loop 32 v 16 [])
    with (if v / 16 =? 0 then [digitChar (v mod 16)]
          else if v / 16 / 16 =? 0 then [digitChar (v / 16 mod 16); digitChar (v mod 16)]
               else printNumber_loop 30 (v / 16 / 16) 16
                      [digitChar (v / 16 mod 16); digitChar (v mod 16)]).
  destruct (Z.ltb_spec v 16) as [Hlt|Hge].
  - rewrite Z.div_small by lia. reflexivity.
  - assert (H1 : 1 <= v / 16 < 16).
    { split; [apply Z.div_le_lower_bound; lia | apply Z.div_lt_upper_bound; lia]. }
    destruct (Z.eqb_spec (v / 16) 0) as [E|_]; [lia|].
    rewrite (Z.div_small (v / 16) 16) by lia.
    rewrite (Z.mod_small (v / 16) 16) by lia. reflexivity.
Qed.

Lemma sendMotorShieldCommand_wire boardNum pdata st :
  is_byte boardNum -> is_byte pdata ->
  sendMotorShieldCommand boardNum pdata st = Serial_write (command_text boardNum pdata) st.
Proof.
  intros Hb Hp. unfold sendMotorShieldCommand, Serial_print_num, Serial_print, command_text.
  rewrite <- (printNumber_byte boardNum Hb), <- (printNumber_byte pdata Hp).
  destruct (boardNum <? 16), (pdata <? 16); rewrite !Serial_write_write;
    f_equal; cbn; rewrite <- ?app_assoc; reflexivity.
Qed.

(** ** The note table *)

Lemma noteToMotorShieldChannel_defined note :
  defined_note note = true -> 0 <= noteToMotorShieldChannel note <= 7.
Proof.
  unfold defined_note, noteToMotorShieldChannel.
  destruct (note =? Note.c); [lia|]. destruct (note =? Note.d); [lia|].
  destruct (note =? Note.e); [lia|]. destruct (note =? Note.f); [lia|].
  destruct (note =? Note.g); [lia|]. destruct (note =? Note.a); [lia|].
  destruct (note =? Note.b); [lia|]. destruct (note =? Note.C); [lia|].
  cbn. discriminate.
Qed.

Lemma noteToMotorShieldChannel_undefined note :
  defined_note note = false -> noteToMotorShieldChannel note = 0x7F.
Proof.
  unfold defined_note, noteToMotorShieldChannel.
  destruct (note =? Note.c); [discriminate|]. destruct (note =? Note.d); [discriminate|].
  destruct (note =? Note.e); [discriminate|]. destruct (note =? Note.f); [discriminate|].
  destruct (note =? Note.g); [discriminate|]. destruct (note =? Note.a); [discriminate|].
  destruct (note =? Note.b); [discriminate|]. destruct (note =? Note.C); [discriminate|].
  reflexivity.
Qed.

Lemma shift_channel ch : 0 <= ch <= 7 -> wrap_byte (Z.shiftl 1 ch) = 2 ^ ch.
Proof.
  intros H. unfold wrap_byte. rewrite Z.shiftl_1_l.
  assert (C : ch = 0 \/ ch = 1 \/ ch = 2 \/ ch = 3 \/ ch = 4 \/ ch = 5 \/ ch = 6 \/ ch = 7) by lia.
  destruct C as [-> | [-> | [-> | [-> | [-> | [-> | [-> | ->]]]]]]]; reflexivity.
Qed.

Lemma playNote_wire note st : playNote note st = Serial_write (note_wire note) st.
Proof.
  unfold playNote, note_wire. change (negb (PLAY_DEBUG_MODE =? 0)) with false. cbv iota.
  destruct (defined_note note) eqn:D.
  - pose proof (noteToMotorShieldChannel_defined note D) as R.
    destruct (Z.geb_spec (noteToMotorShieldChannel note) 0); [|lia].
    destruct (Z.leb_spec (noteToMotorShieldChannel note) 7); [|lia].
    cbn [andb]. rewrite shift_channel by exact R.
    apply sendMotorShieldCommand_wire; unfold is_byte, slaveAddr; [lia|].
    split; [apply Z.pow_nonneg; lia|].
    assert (2 ^ noteToMotorShieldChannel note <= 2 ^ 7) by (apply Z.pow_le_mono_r; lia).
    change (2 ^ 7) with 128 in *. lia.
  - rewrite (noteToMotorShieldChannel_undefined note D). cbn.
    symmetry. apply Serial_write_nil.
Qed.

(** ** One byte of song data *)

Lemma processSongData_end dataVal st :
  dataVal = 0 \/ dataVal > Note.C -> processSongData dataVal st = Ok (0, st).
Proof.
  intros H. unfold processSongData.
  destruct (Z.eqb_spec dataVal 0); [reflexivity|].
  destruct (Z.gtb_spec dataVal Note.C); [reflexivity|]. lia.
Qed.

Lemma processSongData_stopped dataVal st :
  songPlaying st = 0 -> processSongData dataVal st = Ok (0, st).
Proof.
  intros H. unfold processSongData. rewrite H. cbn.
  destruct (dataVal =? 0); [reflexivity|]. destruct (dataVal >? Note.C); reflexivity.
Qed.

Lemma processSongData_pause dataVal st :
  dataVal <> 0 -> dataVal < Note.c -> songPlaying st <> 0 ->
  processSongData dataVal st = (let* st' := pause dataVal st in Ok (1, st')).
Proof.
  intros H0 H1 HP. unfold processSongData.
  destruct (Z.eqb_spec dataVal 0); [contradiction|].
  destruct (Z.gtb_spec dataVal Note.C); [unfold Note.c, Note.C in *; lia|].
  destruct (Z.eqb_spec (songPlaying st) 0); [contradiction|].
  destruct (Z.geb_spec dataVal Note.c); [lia|].
  destruct (Z.ltb_spec dataVal Note.c); [reflexivity|lia].
Qed.

Lemma processSongData_note dataVal st :
  Note.c <= dataVal <= Note.C -> songPlaying st <> 0 ->
  processSongData dataVal st = Ok (1, playNote dataVal st).
Proof.
  intros H HP. unfold processSongData.
  destruct (Z.eqb_spec dataVal 0); [unfold Note.c in *; lia|].
  destruct (Z.gtb_spec dataVal Note.C); [lia|].
  destruct (Z.eqb_spec (songPlaying st) 0); [contradiction|].
  destruct (Z.geb_spec dataVal Note.c); [|lia].
  destruct (Z.ltb_spec dataVal Note.c); [lia|reflexivity].
Qed.

Lemma pause_runs num16ths st :
  wrap_ulong (tempo st) <> 0 ->
  exists n, delayTicks num16ths (tempo st) = Ok n
            /\ pause num16ths st = Ok (pause_loop (Z.to_nat n) st).
Proof.
  intros T. unfold pause, delayTicks.
  destruct (Z.eqb_spec (wrap_ulong (tempo st)) 0); [contradiction|].
  eexists; split; reflexivity.
Qed.

(** What [processSongData()] does, once and for all: it stops and leaves
    the state alone, or it goes on after a note or a pause. *)
Lemma processSongData_cases dataVal st :
  wrap_ulong (tempo st) <> 0 ->
  (processSongData dataVal st = Ok (0, st)
   /\ (dataVal = 0 \/ dataVal > Note.C \/ songPlaying st = 0))
  \/ (exists st',
        processSongData dataVal st = Ok (1, st')
        /\ dataVal <> 0 /\ dataVal <= Note.C /\ songPlaying st <> 0
        /\ tempo st' = tempo st /\ songDataPtr st' = songDataPtr st
        /\ songIndex st' = songIndex st /\ rotaryDisabled st' = rotaryDisabled st
        /\ serialOut st' = serialOut st ++ byte_wire dataVal
        /\ (rotaryDisabled st <> 0 -> frozen st' = frozen st)
        /\ (no_click (btnIn st) ->
            songPlaying st' = songPlaying st /\ no_click (btnIn st'))).
Proof.
  intros T.
  destruct (Z.eq_dec dataVal 0) as [E0|N0].
  { left. split; [apply processSongData_end|]; auto. }
  destruct (Z_gt_dec dataVal Note.C) as [G|NG].
  { left. split; [apply processSongData_end|]; auto. }
  destruct (Z.eq_dec (songPlaying st) 0) as [EP|NP].
  { left. split; [apply processSongData_stopped|]; auto. }
  right. unfold byte_wire.
  destruct (Z.geb_spec dataVal Note.c) as [Hn|Hp].
  - exists (playNote dataVal st). rewrite processSongData_note by lia.
    rewrite playNote_wire. repeat split; auto; lia.
  - destruct (pause_runs dataVal st T) as (n & _ & Hpause).
    exists (pause_loop (Z.to_nat n) st).
    rewrite processSongData_pause, Hpause by (auto; lia).
    destruct (pause_loop_io (Z.to_nat n) st) as (S & P & T' & I & D).
    rewrite app_nil_r.
    repeat split; auto; try lia.
    + apply pause_loop_frozen.
    + apply pause_loop_no_click; assumption.
    + apply pause_loop_no_click; assumption.
Qed.

(** ** The playback loop *)

Lemma end_byte_true b : end_byte b = true <-> b = 0 \/ b > Note.C.
Proof.
  unfold end_byte. rewrite orb_true_iff, Z.eqb_eq, Z.gtb_gt. reflexivity.
Qed.

Lemma end_byte_false b : end_byte b = false <-> b <> 0 /\ b <= Note.C.
Proof.
  unfold end_byte. rewrite orb_false_iff, Z.eqb_neq, Z.gtb_ltb, Z.ltb_ge. reflexivity.
Qed.

(** The loop stops at some byte [b] of the song, at offset [k]: an end byte,
    or any byte once the playback flag is cleared.  Every byte before it was
    played; nothing but the serial line, the clock, the input queues, the
    flag and the pointer has changed if rotation is disabled. *)
Lemma playLoop_spec data st :
  wrap_ulong (tempo st) <> 0 -> has_end data ->
  exists st' k b,
    playLoop data st = Ok st'
    /\ data !! k = Some b
    /\ (b = 0 \/ b > Note.C \/ songPlaying st' = 0)
    /\ songDataPtr st' = songDataPtr st + Z.of_nat k + 1
    /\ serialOut st' = serialOut st ++ concat (map byte_wire (take k data))
    /\ tempo st' = tempo st /\ songIndex st' = songIndex st
    /\ rotaryDisabled st' = rotaryDisabled st
    /\ (rotaryDisabled st <> 0 -> frozen st' = frozen st)
    /\ (songPlaying st <> 0 -> no_click (btnIn st) ->
        songPlaying st' = songPlaying st /\ no_click (btnIn st')
        /\ end_byte b = true /\ Forall (fun x => end_byte x = false) (take k data)).
Proof.
  revert st. induction data as [|b0 rest IH]; intros st T HE.
  { inversion HE. }
  cbn [playLoop].
  set (st0 := set_songDataPtr (songDataPtr st + 1) st).
  destruct (processSongData_cases b0 st0 T) as [(R & Hstop) | (st1 & R & N0 & NC & NP & T1 & P1 & I1 & D1 & S1 & F1 & Q1)].
  - rewrite R. cbn. exists st0, 0%nat, b0. cbn.
    rewrite app_nil_r. repeat split; auto; try lia.
    apply end_byte_true. destruct Hstop as [?|[?|?]]; auto. contradiction.
  - rewrite R. cbn.
    assert (HE' : has_end rest).
    { inversion HE as [? ? Hb|? ? Hr]; subst; [|exact Hr].
      apply end_byte_true in Hb. lia. }
    assert (T1' : wrap_ulong (tempo st1) <> 0) by (rewrite T1; exact T).
    destruct (IH st1 T1' HE') as (st' & k & b & L & K & C & P & SO & T2 & I2 & D2 & F2 & Q2).
    exists st', (S k), b. cbn [take map concat lookup].
    repeat split.
    + exact L.
    + exact K.
    + exact C.
    + rewrite P, P1. cbn. lia.
    + rewrite SO, S1. cbn. rewrite <- app_assoc. reflexivity.
    + rewrite T2, T1. reflexivity.
    + rewrite I2, I1. reflexivity.
    + rewrite D2, D1. reflexivity.
    + intros HD. rewrite F2 by (rewrite D1; exact HD). apply (F1 HD).
    + destruct (Q1 H0) as (A1 & A2). destruct Q2 as (B1 & _); [congruence | exact A2 |].
      rewrite B1. exact A1.
    + destruct (Q1 H0) as (A1 & A2). destruct Q2 as (_ & B2 & _); [congruence | exact A2 |].
      exact B2.
    + destruct (Q1 H0) as (A1 & A2). destruct Q2 as (_ & _ & B3 & _); [congruence | exact A2 |].
      exact B3.
    + destruct (Q1 H0) as (A1 & A2). destruct Q2 as (_ & _ & _ & B4); [congruence | exact A2 |].
      constructor; [apply end_byte_false; auto | exact B4].
Qed.

Lemma song_wire_take data k b :
  data !! k = Some b -> end_byte b = true ->
  Forall (fun x => end_byte x = false) (take k data) ->
  concat (map byte_wire (take k data)) = song_wire data.
Proof.
  revert k. induction data as [|b0 rest IH]; intros k K E F.
  { destruct k; discriminate. }
  destruct k as [|k]; cbn in *.
  - injection K as ->. rewrite E. reflexivity.
  - inversion F as [|? ? F0 F']; subst. rewrite F0. f_equal. eapply IH; eauto.
Qed.

(** ** The catalog *)

Lemma catalog_playable :
  forallb (fun i => match songTempos !! i, songData !! i with
                    | Some t, Some data => playable t data
                    | _, _ => false
                    end) (seq 0 12) = true.
Proof. vm_compute. reflexivity. Qed.

Lemma catalog_lookup idx :
  0 <= idx < SONG_COUNT ->
  exists t data title,
    pgm_read songTempos idx = Ok t /\ pgm_read songData idx = Ok data
    /\ pgm_read songTitles idx = Ok title
    /\ songTempos !! Z.to_nat idx = Some t /\ songData !! Z.to_nat idx = Some data
    /\ playable t data = true /\ (String.length title <= 16)%nat.
Proof.
  unfold SONG_COUNT. intros H. unfold pgm_read.
  destruct (Z.ltb_spec idx 0); [lia|].
  assert (C : (Z.to_nat idx < 12)%nat) by lia.
  destruct (Z.to_nat idx) as [|[|[|[|[|[|[|[|[|[|[|[|n]]]]]]]]]]]]; [..|lia];
    do 3 eexists; (repeat split; [reflexivity ..|]); cbn; lia.
Qed.

Lemma last_has_end (data : list Z) : last data = Some 0 -> has_end data.
Proof.
  unfold has_end. induction data as [|b [|b' rest] IH]; cbn; intros H.
  - discriminate.
  - injection H as ->. constructor. reflexivity.
  - apply Exists_cons_tl. apply IH. exact H.
Qed.

Lemma playable_spec t data :
  playable t data = true ->
  6 <= t <= 32767 /\ wrap_ulong t <> 0 /\ Forall is_byte data /\ last data = Some 0
  /\ has_end data.
Proof.
  unfold playable. rewrite !andb_true_iff, Z.leb_le, Z.leb_le.
  intros (((H6 & H7) & HB) & HL).
  assert (L : last data = Some 0).
  { destruct (last data) as [[| |]|]; try discriminate. reflexivity. }
  repeat split; try lia.
  - unfold wrap_ulong. rewrite Z.mod_small; lia.
  - rewrite forallb_forall in HB. apply List.Forall_forall. intros x Hx.
    specialize (HB x Hx). unfold is_byteb in HB. unfold is_byte.
    rewrite andb_true_iff, !Z.leb_le in HB. exact HB.
  - exact L.
  - apply last_has_end. exact L.
Qed.

(** ** The display *)

Lemma row16 (r : list ascii) :
  length r = 16%nat ->
  exists c0 c1 c2 c3 c4 c5 c6 c7 c8 c9 c10 c11 c12 c13 c14 c15,
    r = [c0; c1; c2; c3; c4; c5; c6; c7; c8; c9; c10; c11; c12; c13; c14; c15].
Proof.
  intros H. do 16 (destruct r as [|? r]; [discriminate|]).
  destruct r; [|discriminate]. repeat eexists.
Qed.

(** A headline of LCD_COL_COUNT characters replaces row 0 and keeps row 1. *)
Lemma headline_text (s : string) d row0 row1 :
  String.length s = 16%nat ->
  lcdText d = [row0; row1] -> length row0 = 16%nat ->
  lcdText (lcd_print s (lcd_setCursor 0 0 d)) = [list_ascii_of_string s; row1].
Proof.
  intros HS H L.
  destruct (row16 row0 L) as (c0&c1&c2&c3&c4&c5&c6&c7&c8&c9&c10&c11&c12&c13&c14&c15&->).
  destruct d as [col row text]; cbn in H; subst text.
  do 16 (destruct s as [|? s]; [discriminate|]).
  destruct s; [|discriminate]. reflexivity.
Qed.

Lemma printSelectSong_lcd st :
  lcd (printSelectSong st) = lcd_print "Select a Song   " (lcd_setCursor 0 0 (lcd st)).
Proof. reflexivity. Qed.

Lemma printSongPlaying_lcd st :
  lcd (printSongPlaying st) = lcd_print "--- Playing  ---" (lcd_setCursor 0 0 (lcd st)).
Proof. reflexivity. Qed.

(** A display function changes the [lcd] field and nothing else. *)
Lemma printSelectSong_on_lcd st : printSelectSong st = set_lcd (lcd (printSelectSong st)) st.
Proof. destruct st; reflexivity. Qed.

Lemma printSongPlaying_on_lcd st : printSongPlaying st = set_lcd (lcd (printSongPlaying st)) st.
Proof. destruct st; reflexivity. Qed.

Lemma lcdPrintProgStr_on_lcd str st :
  lcdPrintProgStr str st = set_lcd (lcd (lcdPrintProgStr str st)) st.
Proof. destruct st; reflexivity. Qed.

#[local] Opaque printSelectSong printSongPlaying lcdPrintProgStr.

(** ** [playSelectedSong()] in three parts: entry, loop, exit *)

Lemma playSelectedSong_split st t data :
  pgm_read songTempos (songIndex st) = Ok t ->
  pgm_read songData (songIndex st) = Ok data ->
  playSelectedSong st
  = (let* st1 := playLoop data (enterPlayback t st) in Ok (leavePlayback st1)).
Proof.
  intros HT HD. unfold playSelectedSong, enterPlayback, leavePlayback. cbv zeta.
  rewrite (printSongPlaying_on_lcd (set_rotaryDisabled 1 st)).
  cbn [songIndex set_lcd set_tempo set_rotaryDisabled].
  rewrite HT. cbn [bind]. rewrite HD. reflexivity.
Qed.

Lemma Serial_println_empty st : Serial_println EmptyString st = Serial_write CRLF st.
Proof.
  unfold Serial_println, Serial_print. cbn [list_ascii_of_string].
  rewrite Serial_write_nil. reflexivity.
Qed.

Lemma enterPlayback_fields t st :
  frozen (enterPlayback t st)
  = (t, songIndex st, rotaryCount st, rotaryChanged st, 1, aFlag st, bFlag st, reading st,
     lcd_print "--- Playing  ---" (lcd_setCursor 0 0 (lcd st)))
  /\ songPlaying (enterPlayback t st) = songPlaying st
  /\ songDataPtr (enterPlayback t st) = 0
  /\ serialOut (enterPlayback t st) = serialOut st
  /\ millis (enterPlayback t st) = millis st
  /\ btnIn (enterPlayback t st) = btnIn st
  /\ irqIn (enterPlayback t st) = irqIn st.
Proof.
  unfold enterPlayback. rewrite printSongPlaying_on_lcd, printSongPlaying_lcd.
  repeat split; reflexivity.
Qed.

Lemma leavePlayback_fields st :
  songPlaying (leavePlayback st) = 0
  /\ rotaryDisabled (leavePlayback st) = 0
  /\ serialOut (leavePlayback st) = serialOut st ++ CRLF
  /\ lcd (leavePlayback st) = lcd_print "Select a Song   " (lcd_setCursor 0 0 (lcd st))
  /\ (tempo (leavePlayback st), songIndex (leavePlayback st), rotaryCount (leavePlayback st),
      rotaryChanged (leavePlayback st), aFlag (leavePlayback st), bFlag (leavePlayback st),
      reading (leavePlayback st), songDataPtr (leavePlayback st), millis (leavePlayback st),
      btnIn (leavePlayback st), irqIn (leavePlayback st))
     = (tempo st, songIndex st, rotaryCount st, rotaryChanged st, aFlag st, bFlag st,
        reading st, songDataPtr st, millis st, btnIn st, irqIn st).
Proof.
  unfold leavePlayback.
  rewrite printSelectSong_on_lcd, printSelectSong_lcd, Serial_println_empty.
  repeat split; reflexivity.
Qed.

(** [playSelectedSong()] on a catalog song: the loop comes to a stop at some
    byte of the song and the function returns. *)
Lemma playSelectedSong_spec st :
  0 <= songIndex st < SONG_COUNT ->
  exists t data st1 k b,
    songTempos !! Z.to_nat (songIndex st) = Some t
    /\ songData !! Z.to_nat (songIndex st) = Some data
    /\ playable t data = true
    /\ playLoop data (enterPlayback t st) = Ok st1
    /\ playSelectedSong st = Ok (leavePlayback st1)
    /\ data !! k = Some b
    /\ (b = 0 \/ b > Note.C \/ songPlaying st1 = 0)
    /\ songDataPtr st1 = Z.of_nat k + 1
    /\ serialOut st1 = serialOut st ++ concat (map byte_wire (take k data))
    /\ frozen st1 = frozen (enterPlayback t st)
    /\ (songPlaying st <> 0 -> no_click (btnIn st) ->
        songPlaying st1 = songPlaying st /\ no_click (btnIn st1)
        /\ end_byte b = true /\ Forall (fun x => end_byte x = false) (take k data)).
Proof.
  intros HI.
  destruct (catalog_lookup (songIndex st) HI) as (t & data & title & RT & RD & _ & LT & LD & PL & _).
  destruct (playable_spec t data PL) as (_ & TZ & _ & _ & HE).
  destruct (enterPlayback_fields t st) as (F0 & P0 & D0 & S0 & _ & B0 & _).
  assert (T0 : tempo (enterPlayback t st) = t).
  { unfold frozen in F0. congruence. }
  assert (R0 : rotaryDisabled (enterPlayback t st) = 1).
  { unfold frozen in F0. congruence. }
  destruct (playLoop_spec data (enterPlayback t st)) as (st1 & k & b & L & K & C & P & S & _ & _ & _ & F & Q).
  { rewrite T0. exact TZ. }
  { exact HE. }
  exists t, data, st1, k, b.
  rewrite (playSelectedSong_split st t data RT RD), L. cbn [bind].
  repeat split; auto;
    try (rewrite P, D0; lia);
    try (rewrite S, S0; reflexivity);
    try (apply F; rewrite R0; discriminate);
    apply Q; congruence.
Qed.

(** ** Rotation *)

Lemma rotaryUp_clamps st :
  0 <= rotaryCount st <= SONG_COUNT - 1 ->
  rotaryCount (rotaryUp st) = Z.min (rotaryCount st + 1) (SONG_COUNT - 1).
Proof.
  unfold SONG_COUNT. intros H. unfold rotaryUp, rotaryMax, SONG_COUNT, wrap_int. cbn.
  rewrite Z.mod_small by lia.
  destruct (Z.gtb_spec (rotaryCount st + 1 + 32768 - 32768) (12 - 1)); cbn; lia.
Qed.

Lemma rotaryDown_clamps st :
  0 <= rotaryCount st <= SONG_COUNT - 1 ->
  rotaryCount (rotaryDown st) = Z.max (rotaryCount st - 1) 0.
Proof.
  unfold SONG_COUNT. intros H. unfold rotaryDown, wrap_int. cbn.
  rewrite Z.mod_small by lia.
  destruct (Z.ltb_spec (rotaryCount st - 1 + 32768 - 32768) 0); cbn; lia.
Qed.

Lemma PinA_range PIND st :
  0 <= rotaryCount st <= SONG_COUNT - 1 -> 0 <= rotaryCount (PinA PIND st) <= SONG_COUNT - 1.
Proof.
  intros H. unfold PinA.
  destruct (negb (rotaryDisabled st =? 0)); [exact H|]. cbv zeta.
  destruct (_ && _).
  - change (rotaryCount (set_aFlag 0 (set_bFlag 0 (rotaryUp (set_reading (Z.land PIND 12) st)))))
      with (rotaryCount (rotaryUp (set_reading (Z.land PIND 12) st))).
    rewrite rotaryUp_clamps by exact H. cbn [rotaryCount set_reading]. lia.
  - destruct (_ =? 4); exact H.
Qed.

Lemma PinB_range PIND st :
  0 <= rotaryCount st <= SONG_COUNT - 1 -> 0 <= rotaryCount (PinB PIND st) <= SONG_COUNT - 1.
Proof.
  intros H. unfold PinB.
  destruct (negb (rotaryDisabled st =? 0)); [exact H|]. cbv zeta.
  destruct (_ && _).
  - change (rotaryCount (set_aFlag 0 (set_bFlag 0 (rotaryDown (set_reading (Z.land PIND 12) st)))))
      with (rotaryCount (rotaryDown (set_reading (Z.land PIND 12) st))).
    rewrite rotaryDown_clamps by exact H. cbn [rotaryCount set_reading]. lia.
  - destruct (_ =? 8); exact H.
Qed.

Lemma interrupt_range i st :
  0 <= rotaryCount st <= SONG_COUNT - 1 ->
  0 <= rotaryCount (interrupt i st) <= SONG_COUNT - 1.
Proof. unfold interrupt. destruct (irqPin i); auto using PinA_range, PinB_range. Qed.

Lemma interrupts_range irqs st :
  0 <= rotaryCount st <= SONG_COUNT - 1 ->
  0 <= rotaryCount (fold_left (fun s i => interrupt i s) irqs st) <= SONG_COUNT - 1.
Proof.
  revert st. induction irqs as [|i irqs IH]; intros st H; cbn; [exact H|].
  apply IH, interrupt_range, H.
Qed.

Lemma delay_range ms st :
  0 <= rotaryCount st <= SONG_COUNT - 1 ->
  0 <= rotaryCount (delay ms st) <= SONG_COUNT - 1.
Proof.
  intros H. unfold delay. cbv zeta. cbn [irqIn set_millis].
  destruct (irqIn st); [exact H|]. apply interrupts_range. exact H.
Qed.

(** ** Serial traffic *)

Lemma one_bit_channel ch : 0 <= ch <= 7 -> one_bit (2 ^ ch).
Proof.
  intros H. exists ch. split; [exact H|]. split.
  - rewrite Z.shiftl_1_l. reflexivity.
  - intros i Hi. rewrite Z.pow2_bits_eqb by lia. apply Z.eqb_sym.
Qed.

Lemma wire_ok_note out note : wire_ok out -> wire_ok (out ++ note_wire note).
Proof.
  intros H. unfold note_wire. destruct (defined_note note) eqn:D.
  - apply wire_command; [exact H|]. apply one_bit_channel.
    apply noteToMotorShieldChannel_defined. exact D.
  - rewrite app_nil_r. exact H.
Qed.

Lemma wire_ok_bytes out bytes :
  wire_ok out -> wire_ok (out ++ concat (map byte_wire bytes)).
Proof.
  revert out. induction bytes as [|b bytes IH]; intros out H; cbn.
  - rewrite app_nil_r. exact H.
  - rewrite app_assoc. apply IH. unfold byte_wire.
    destruct (b >=? Note.c); [apply wire_ok_note; exact H | rewrite app_nil_r; exact H].
Qed.

(** ** The main loop *)

Lemma printSelectedSong_spec st :
  0 <= rotaryCount st <= SONG_COUNT - 1 ->
  exists st',
    printSelectedSong st = Ok st'
    /\ songIndex st' = rotaryCount st /\ rotaryCount st' = rotaryCount st
    /\ rotaryChanged st' = 0 /\ rotaryDisabled st' = 0
    /\ serialOut st' = serialOut st /\ songPlaying st' = songPlaying st
    /\ btnIn st' = btnIn st /\ irqIn st' = irqIn st.
Proof.
  intros H. unfold printSelectedSong. cbv zeta.
  cbn [songIndex on_lcd set_lcd set_rotaryDisabled set_songIndex].
  destruct (catalog_lookup (rotaryCount st)) as (_ & _ & title & _ & _ & RT & _); [lia|].
  rewrite RT. cbn [bind]. eexists. split; [reflexivity|].
  rewrite lcdPrintProgStr_on_lcd. repeat split; reflexivity.
Qed.

Lemma playSelectedSong_keeps st :
  0 <= songIndex st < SONG_COUNT ->
  exists st' bytes,
    playSelectedSong st = Ok st'
    /\ serialOut st' = serialOut st ++ concat (map byte_wire bytes) ++ CRLF
    /\ songPlaying st' = 0 /\ rotaryDisabled st' = 0
    /\ rotaryCount st' = rotaryCount st /\ rotaryChanged st' = rotaryChanged st
    /\ songIndex st' = songIndex st /\ aFlag st' = aFlag st /\ bFlag st' = bFlag st
    /\ lcd st' = lcd_print "Select a Song   "
                   (lcd_setCursor 0 0
                      (lcd_print "--- Playing  ---" (lcd_setCursor 0 0 (lcd st)))).
Proof.
  intros HI.
  destruct (playSelectedSong_spec st HI)
    as (t & data & st1 & k & b & _ & _ & _ & _ & R & _ & _ & _ & S & F & _).
  destruct (enterPlayback_fields t st) as (F0 & _).
  destruct (leavePlayback_fields st1) as (L1 & L2 & L3 & L4 & L5).
  rewrite F0 in F. unfold frozen in F.
  exists (leavePlayback st1), (take k data).
  rewrite R, L1, L2, L3, L4, S, <- app_assoc.
  repeat split; congruence.
Qed.

Lemma loop_invariant st :
  selection_ok st -> wire_ok (serialOut st) ->
  exists st', loop st = Ok st' /\ selection_ok st' /\ wire_ok (serialOut st').
Proof.
  unfold selection_ok, loop. intros (HR & HI) HW.
  (* if (songPlaying) playSelectedSong(); *)
  assert (A : exists sa,
             (if negb (songPlaying st =? 0) then playSelectedSong st else Ok st) = Ok sa
             /\ (0 <= rotaryCount sa <= SONG_COUNT - 1 /\ 0 <= songIndex sa <= SONG_COUNT - 1)
             /\ wire_ok (serialOut sa)).
  { destruct (negb (songPlaying st =? 0)); [|exists st; auto].
    destruct (playSelectedSong_keeps st) as (sa & bytes & R & S & _ & _ & C & _ & I & _); [lia|].
    exists sa. rewrite R, S, C, I, app_assoc.
    repeat split; try lia. apply wire_newline, wire_ok_bytes, HW. }
  destruct A as (sa & -> & (HRa & HIa) & HWa). cbn [bind].
  (* if (rotaryChanged) printSelectedSong(); *)
  assert (B : exists sb,
             (if negb (rotaryChanged sa =? 0) then printSelectedSong sa else Ok sa) = Ok sb
             /\ (0 <= rotaryCount sb <= SONG_COUNT - 1 /\ 0 <= songIndex sb <= SONG_COUNT - 1)
             /\ wire_ok (serialOut sb)).
  { destruct (negb (rotaryChanged sa =? 0)); [|exists sa; auto].
    destruct (printSelectedSong_spec sa HRa) as (sb & R & I & C & _ & _ & S & _).
    exists sb. rewrite R, S, C, I. auto. }
  destruct B as (sb & -> & (HRb & HIb) & HWb). cbn [bind].
  (* btnRot.tick(); delay(100); *)
  eexists. split; [reflexivity|].
  destruct (btnRot_tick_frozen sb) as (F & S & _). unfold frozen in F.
  rewrite delay_songIndex, delay_serialOut, S.
  repeat split; try (apply delay_range); try congruence.
  all: replace (songIndex (btnRot_tick sb)) with (songIndex sb) by congruence; lia.
Qed.

Lemma boot_invariant buttons irqs :
  selection_ok (boot buttons irqs) /\ wire_ok (serialOut (boot buttons irqs)).
Proof.
  unfold selection_ok, boot, setup, initializeLcd, initializeRotaryEncoder. cbv zeta.
  rewrite printSelectSong_on_lcd. cbn. split; [unfold SONG_COUNT; lia | constructor].
Qed.

Lemma run_invariant n st :
  selection_ok st -> wire_ok (serialOut st) ->
  exists st', run n st = Ok st' /\ selection_ok st' /\ wire_ok (serialOut st').
Proof.
  revert st. induction n as [|n IH]; intros st HS HW; cbn [run].
  - exists st. auto.
  - destruct (loop_invariant st HS HW) as (st1 & -> & HS1 & HW1). cbn [bind].
    apply IH; assumption.
Qed.

(** ** The code against the specification's codec *)

Lemma channel_agrees code :
  Spec.channel code
  = if defined_note code then Some (noteToMotorShieldChannel code) else None.
Proof.
  unfold Spec.channel, defined_note, noteToMotorShieldChannel,
    Note.c, Note.d, Note.e, Note.f, Note.g, Note.a, Note.b, Note.C.
  repeat match goal with
         | |- context [code =? ?y] => destruct (code =? y); cbn [orb]; try reflexivity
         end.
Qed.

Lemma song_wire_spec data :
  Forall is_byte data -> song_wire data = frames (Spec.transmissions data).
Proof.
  unfold frames. induction 1 as [|b rest Hb _ IH]; [reflexivity|].
  unfold is_byte in Hb. cbn [song_wire Spec.transmissions].
  unfold end_byte, byte_wire, Spec.decode, Note.c, Note.C.
  destruct (Z.eqb_spec b 0) as [->|N0]; [reflexivity|]. cbn [orb].
  destruct (Z.leb_spec 1 b); [|lia].
  destruct (Z.leb_spec b 127) as [Hp|Hn]; cbn [andb].
  - destruct (Z.gtb_spec b 140); [lia|]. destruct (Z.geb_spec b 128); [lia|]. exact IH.
  - destruct (Z.leb_spec 128 b); [|lia]. cbn [andb].
    destruct (Z.leb_spec b 140); destruct (Z.gtb_spec b 140); try lia; [|reflexivity].
    destruct (Z.geb_spec b 128); [|lia].
    rewrite channel_agrees. unfold note_wire.
    destruct (defined_note b); cbn [map concat]; rewrite IH; reflexivity.
Qed.

(** ** The program at work *)

(** A click in the first round of [loop()] starts song 0; the second round
    plays it to its end: eight notes, eight quarter-note pauses of 20 ticks. *)
Example scale_after_click :
  exists st, run 2 (boot [Click] []) = Ok st
             /\ serialOut st = scale_wire ++ CRLF
             /\ millis st = 100 + 8 * 20 * 20 + 100
             /\ songPlaying st = 0.
Proof. eexists. split; [vm_compute; reflexivity|]. vm_compute. auto. Qed.

(** A second click, at the fourth tick of the first pause, stops the song
    after its first note. *)
Example scale_cancelled :
  exists st, run 2 (boot [Click; NoEvent; NoEvent; NoEvent; Click] []) = Ok st
             /\ serialOut st = list_ascii_of_string "<0001>" ++ CRLF
             /\ songDataPtr st = 3
             /\ songPlaying st = 0.
Proof. eexists. split; [vm_compute; reflexivity|]. vm_compute. auto. Qed.

(** One detent clockwise, then one more than the catalog allows. *)
Example detents_clamp :
  rotaryCount (interrupt (mkIrq IntA 12) (interrupt (mkIrq IntB 8) (boot [] []))) = 1
  /\ rotaryCount (Nat.iter 20 rotaryUp (boot [] [])) = 11
  /\ rotaryCount (rotaryDown (boot [] [])) = 0.
Proof. vm_compute. auto. Qed.

(** * The claims *)

(** ** Encoding codec *)

(** C2. [processSongData()] is total over the byte domain and partitions it:
    byte 0 stops, a byte from 0x01 to 0x7F is a pause of that many
    sixteenths, a byte from 0x80 to 0x8C goes to the note handler, a byte
    above 0x8C stops; every byte falls in exactly one class and the return
    value is 0 or 1, never an error.  (The playback flag is set: once it is
    cleared every byte stops, which is cancellation, not decoding.) *)
Theorem processSongData_partitions_bytes (dataVal : Z) (st : state) :
  is_byte dataVal -> songPlaying st <> 0 ->
  (dataVal = 0x00 -> processSongData dataVal st = Ok (0, st))
  /\ (0x01 <= dataVal <= 0x7F ->
      processSongData dataVal st = (let* st' := pause dataVal st in Ok (1, st')))
  /\ (0x80 <= dataVal <= 0x8C -> processSongData dataVal st = Ok (1, playNote dataVal st))
  /\ (0x8C < dataVal -> processSongData dataVal st = Ok (0, st))
  /\ (dataVal = 0x00 \/ 0x01 <= dataVal <= 0x7F \/ 0x80 <= dataVal <= 0x8C \/ 0x8C < dataVal)
  /\ (wrap_ulong (tempo st) <> 0 ->
      exists r st', processSongData dataVal st = Ok (r, st') /\ (r = 0 \/ r = 1)).
Proof.
  intros HB HP. unfold is_byte in HB.
  split; [intros E; apply processSongData_end; auto|].
  split; [intros E; apply processSongData_pause; unfold Note.c; (lia || assumption)|].
  split; [intros E; apply processSongData_note; unfold Note.c, Note.C; (lia || assumption)|].
  split; [intros E; apply processSongData_end; unfold Note.C; right; lia|].
  split; [lia|].
  intros T. destruct (processSongData_cases dataVal st T) as [(R & _)|(st' & R & _)];
    rewrite R; eauto.
Qed.

Lemma processSongData_partitions_bytes_witness :
  processSongData 0x04 (set_tempo 150 (set_songPlaying 1 (boot [] [])))
  = (let* st' := pause 0x04 (set_tempo 150 (set_songPlaying 1 (boot [] []))) in Ok (1, st')).
Proof.
  apply (processSongData_partitions_bytes 0x04 (set_tempo 150 (set_songPlaying 1 (boot [] [])))).
  - unfold is_byte. lia.
  - cbn. lia.
  - lia.
Defined.

Lemma defined_note_cases note :
  defined_note note = true ->
  note = 0x80 \/ note = 0x82 \/ note = 0x84 \/ note = 0x85
  \/ note = 0x87 \/ note = 0x89 \/ note = 0x8B \/ note = 0x8C.
Proof.
  unfold defined_note. rewrite !orb_true_iff, !Z.eqb_eq.
  unfold Note.c, Note.d, Note.e, Note.f, Note.g, Note.a, Note.b, Note.C. tauto.
Qed.

(** C6. Each of the eight note codes is decoded as a note on its own
    channel: the codes 0x80, 0x82, 0x84, 0x85, 0x87, 0x89, 0x8B, 0x8C map to
    the channels 0 to 7 in this order, no two codes share a channel, every
    channel from 0 to 7 has its code, and a defined code that is played puts
    the command of its channel, and nothing else, on the serial line. *)
Theorem noteToMotorShieldChannel_bijective :
  (noteToMotorShieldChannel 0x80 = 0 /\ noteToMotorShieldChannel 0x82 = 1
   /\ noteToMotorShieldChannel 0x84 = 2 /\ noteToMotorShieldChannel 0x85 = 3
   /\ noteToMotorShieldChannel 0x87 = 4 /\ noteToMotorShieldChannel 0x89 = 5
   /\ noteToMotorShieldChannel 0x8B = 6 /\ noteToMotorShieldChannel 0x8C = 7)
  /\ (forall n m, defined_note n = true -> defined_note m = true ->
                  noteToMotorShieldChannel n = noteToMotorShieldChannel m -> n = m)
  /\ (forall ch, 0 <= ch <= 7 ->
                 exists n, defined_note n = true /\ noteToMotorShieldChannel n = ch)
  /\ (forall n, defined_note n = true ->
                0 <= noteToMotorShieldChannel n <= 7
                /\ Spec.channel n = Some (noteToMotorShieldChannel n))
  /\ (forall n st, defined_note n = true -> songPlaying st <> 0 ->
        processSongData n st
        = Ok (1, Serial_write (command_text 0 (2 ^ noteToMotorShieldChannel n)) st)).
Proof.
  split; [repeat split; reflexivity|].
  split.
  { intros n m Hn Hm.
    destruct (defined_note_cases n Hn) as [->|[->|[->|[->|[->|[->|[->| ->]]]]]]];
      destruct (defined_note_cases m Hm) as [->|[->|[->|[->|[->|[->|[->| ->]]]]]]];
      cbn; intros E; congruence. }
  split.
  { intros ch H.
    assert (C : ch = 0 \/ ch = 1 \/ ch = 2 \/ ch = 3 \/ ch = 4 \/ ch = 5 \/ ch = 6 \/ ch = 7) by lia.
    destruct C as [->|[->|[->|[->|[->|[->|[->| ->]]]]]]];
      [exists 0x80 | exists 0x82 | exists 0x84 | exists 0x85
       | exists 0x87 | exists 0x89 | exists 0x8B | exists 0x8C]; split; reflexivity. }
  split.
  { intros n Hn. split; [exact (noteToMotorShieldChannel_defined n Hn)|].
    rewrite channel_agrees, Hn. reflexivity. }
  intros n st Hn HP.
  rewrite processSongData_note, playNote_wire.
  - unfold note_wire. rewrite Hn. reflexivity.
  - destruct (defined_note_cases n Hn) as [->|[->|[->|[->|[->|[->|[->| ->]]]]]]];
      unfold Note.c, Note.C; lia.
  - exact HP.
Qed.

Lemma noteToMotorShieldChannel_bijective_witness :
  serialOut (Serial_write (command_text 0 (2 ^ noteToMotorShieldChannel 0x85))
               (set_songPlaying 1 (boot [] [])))
  = list_ascii_of_string "<0008>"
  /\ processSongData 0x85 (set_songPlaying 1 (boot [] []))
     = Ok (1, Serial_write (command_text 0 (2 ^ noteToMotorShieldChannel 0x85))
                (set_songPlaying 1 (boot [] []))).
Proof.
  split; [reflexivity|].
  apply (proj2 (proj2 (proj2 (proj2 noteToMotorShieldChannel_bijective)))).
  - reflexivity.
  - cbn. lia.
Defined.

(** C7. A byte of the note range 0x80 to 0x8C that is none of the eight
    note codes maps to the invalid channel 0x7F; [playNote()] then sends
    nothing and changes nothing, [processSongData()] returns 1 and the loop
    goes on with the next byte of the song. *)
Theorem unmapped_note_is_skipped (dataVal : Z) :
  Note.c <= dataVal <= Note.C -> defined_note dataVal = false ->
  noteToMotorShieldChannel dataVal = 0x7F
  /\ (forall st, playNote dataVal st = st)
  /\ (forall st, songPlaying st <> 0 -> processSongData dataVal st = Ok (1, st))
  /\ (forall st rest, songPlaying st <> 0 ->
        playLoop (dataVal :: rest) st
        = playLoop rest (set_songDataPtr (songDataPtr st + 1) st)).
Proof.
  intros HR HU.
  assert (PN : forall st, playNote dataVal st = st).
  { intros st. rewrite playNote_wire. unfold note_wire. rewrite HU. apply Serial_write_nil. }
  split; [apply noteToMotorShieldChannel_undefined; exact HU|].
  split; [exact PN|].
  split.
  - intros st HP. rewrite processSongData_note by assumption. rewrite PN. reflexivity.
  - intros st rest HP. cbn [playLoop].
    rewrite processSongData_note by assumption. rewrite PN. reflexivity.
Qed.

Lemma unmapped_note_is_skipped_witness :
  noteToMotorShieldChannel 0x81 = 0x7F
  /\ processSongData 0x81 (set_songPlaying 1 (boot [] []))
     = Ok (1, set_songPlaying 1 (boot [] [])).
Proof.
  assert (R : Note.c <= 0x81 <= Note.C) by (unfold Note.c, Note.C; lia).
  destruct (unmapped_note_is_skipped 0x81 R eq_refl) as (H1 & _ & H3 & _).
  split; [exact H1|]. apply H3. cbn. lia.
Defined.

(** ** Pauses *)

Lemma delayTicks_exact num16ths tempo :
  0 <= num16ths <= 255 -> 0 < tempo <= 32767 ->
  num16ths * 120 * 125 / tempo / 20 <= 32767 ->
  delayTicks num16ths tempo = Ok (num16ths * 120 * 125 / tempo / 20).
Proof.
  intros HD HT HF. unfold delayTicks, wrap_ulong, wrap_int.
  rewrite (Z.mod_small tempo) by lia.
  destruct (Z.eqb_spec tempo 0); [lia|].
  rewrite (Z.mod_small (num16ths * 120)) by lia.
  rewrite (Z.mod_small (num16ths * 120 * 125)) by lia.
  assert (0 <= num16ths * 120 * 125 / tempo / 20).
  { apply Z.div_pos; [|lia]. apply Z.div_pos; lia. }
  rewrite Z.mod_small by lia. f_equal. lia.
Qed.

Lemma catalog_tempos idx t : songTempos !! idx = Some t -> 120 <= t <= 200.
Proof.
  do 12 (destruct idx as [|idx]; [intros [= <-]; vm_compute; split; discriminate|]).
  discriminate.
Qed.

(** C5. The tick count of [pause()] is duration * 120 * 125 / tempo / 20 in
    integer arithmetic, every tick being one [delay(20)]: for every duration
    byte and positive tempo whose count fits the [int] it is stored in, which
    is so for every duration at every tempo of the catalog; for 16 sixteenths
    at 150 beats per minute the count is 80, and the pause takes 1600 ms. *)
Theorem pause_delay_formula :
  (forall num16ths tempo,
      0 <= num16ths <= 255 -> 0 < tempo <= 32767 ->
      num16ths * 120 * 125 / tempo / 20 <= 32767 ->
      delayTicks num16ths tempo = Ok (num16ths * 120 * 125 / tempo / 20))
  /\ (forall idx t num16ths,
         songTempos !! idx = Some t -> 0 <= num16ths <= 255 ->
         delayTicks num16ths t = Ok (num16ths * 120 * 125 / t / 20))
  /\ delayTicks 16 150 = Ok 80
  /\ (forall st, tempo st = 150 -> songPlaying st <> 0 -> no_click (btnIn st) ->
        exists st', pause 16 st = Ok st' /\ millis st' = millis st + 1600
                    /\ songPlaying st' = songPlaying st).
Proof.
  split; [exact delayTicks_exact|].
  split.
  { intros idx t num16ths Ht Hd. pose proof (catalog_tempos idx t Ht) as R.
    apply delayTicks_exact; try lia.
    assert (num16ths * 120 * 125 / t <= 255 * 120 * 125 / 120).
    { apply Z.le_trans with (num16ths * 120 * 125 / 120).
      - apply Z.div_le_compat_l; lia.
      - apply Z.div_le_mono; lia. }
    change (255 * 120 * 125 / 120) with 31875 in *.
    apply Z.le_trans with (31875 / 20); [apply Z.div_le_mono; lia|].
    change (31875 / 20) with 1593. lia. }
  split; [reflexivity|].
  intros st Ht HP HQ. unfold pause. rewrite Ht. change (delayTicks 16 150) with (Ok (A:=Z) 80).
  cbn [bind]. eexists. split; [reflexivity|].
  destruct (pause_loop_no_click (Z.to_nat 80) st HP HQ) as (P & _ & M).
  split; [rewrite M; reflexivity | exact P].
Qed.

Lemma pause_delay_formula_witness :
  delayTicks 127 120 = Ok (127 * 120 * 125 / 120 / 20)
  /\ exists st', pause 16 (set_tempo 150 (set_songPlaying 1 (boot [] []))) = Ok st'
                 /\ millis st' = millis (set_tempo 150 (set_songPlaying 1 (boot [] []))) + 1600
                 /\ songPlaying st' = songPlaying (set_tempo 150 (set_songPlaying 1 (boot [] []))).
Proof.
  destruct pause_delay_formula as (H1 & _ & _ & H4).
  split.
  - apply H1; [lia | lia | vm_compute; discriminate].
  - apply H4; [reflexivity | cbn; lia | constructor].
Defined.

(** C4. A click during the wait of a pause clears the playback flag, and the
    wait ends in the polling round of that click: after [quietTicks] rounds
    without a click and the round of the click, no further tick or delay is
    run.  From then on [processSongData()] returns 0 for every byte and
    leaves the state as it is (no command sent, no wait), so the loop of
    [playSelectedSong()] stops at the next byte it reads. *)
Theorem cancel_during_pause (num16ths : Z) (st : state) (n : Z)
        (quietTicks later : list ButtonEvent) :
  songPlaying st <> 0 ->
  delayTicks num16ths (tempo st) = Ok n ->
  no_click quietTicks ->
  btnIn st = quietTicks ++ Click :: later ->
  Z.of_nat (length quietTicks) < n ->
  exists st',
    pause num16ths st = Ok st'
    /\ songPlaying st' = 0
    /\ btnIn st' = later
    /\ millis st' = millis st + 20 * (Z.of_nat (length quietTicks) + 1)
    /\ serialOut st' = serialOut st
    /\ (forall dataVal, processSongData dataVal st' = Ok (0, st'))
    /\ (forall dataVal rest,
          playLoop (dataVal :: rest) st'
          = Ok (set_songDataPtr (songDataPtr st' + 1) st')).
Proof.
  intros HP HN HQ HB HL. unfold pause. rewrite HN. cbn [bind].
  eexists. split; [reflexivity|].
  destruct (pause_loop_click quietTicks later (Z.to_nat n) st HP HQ HB) as (P & B & M); [lia|].
  destruct (pause_loop_io (Z.to_nat n) st) as (S & _).
  repeat split; auto.
  - intros dataVal. apply processSongData_stopped. exact P.
  - intros dataVal rest. cbn [playLoop]. rewrite processSongData_stopped by exact P.
    reflexivity.
Qed.

Lemma cancel_during_pause_witness :
  exists st',
    pause 4 (set_tempo 150 (set_songPlaying 1 (boot [NoEvent; NoEvent; Click; Click] [])))
    = Ok st'
    /\ songPlaying st' = 0
    /\ btnIn st' = [Click]
    /\ millis st' = 0 + 20 * (Z.of_nat 2 + 1)
    /\ serialOut st' = []
    /\ (forall dataVal, processSongData dataVal st' = Ok (0, st'))
    /\ (forall dataVal rest,
          playLoop (dataVal :: rest) st'
          = Ok (set_songDataPtr (songDataPtr st' + 1) st')).
Proof.
  apply (cancel_during_pause 4
           (set_tempo 150 (set_songPlaying 1 (boot [NoEvent; NoEvent; Click; Click] [])))
           20 [NoEvent; NoEvent] [Click]).
  - cbn. lia.
  - reflexivity.
  - repeat constructor; discriminate.
  - reflexivity.
  - cbn. lia.
Defined.

(** ** Playback engine *)

(** C1. A sequence of bytes that ends with the terminator 0, played without
    a click, makes the playback loop return after sending one command per
    valid Note event of the sequence, in sequence order, and nothing else.
    For a catalog song [playSelectedSong()] returns, what it has put on the
    serial line is these commands, then the line end; the flag is cleared
    and the display is back to the selection headline.  For song 0 (Scale,
    tempo 150) these are the eight commands of the channels 0 to 7. *)
Theorem playSelectedSong_transmits_notes :
  (forall (data : list Z) (st : state),
      last data = Some 0 -> Forall is_byte data ->
      wrap_ulong (tempo st) <> 0 ->
      songPlaying st <> 0 -> no_click (btnIn st) ->
      exists st',
        playLoop data st = Ok st'
        /\ serialOut st' = serialOut st ++ frames (Spec.transmissions data)
        /\ songPlaying st' = songPlaying st)
  /\ (forall (idx : nat) (data : list Z) (st : state),
      songData !! idx = Some data -> last data = Some 0 ->
      songIndex st = Z.of_nat idx ->
      songPlaying st <> 0 -> no_click (btnIn st) -> lcd_ready (lcd st) ->
      exists st',
        playSelectedSong st = Ok st'
        /\ serialOut st' = serialOut st ++ frames (Spec.transmissions data) ++ CRLF
        /\ songPlaying st' = 0 /\ rotaryDisabled st' = 0
        /\ lcdText (lcd st') !! 0%nat = Some top_line_selecting)
  /\ songTitles !! 0%nat = Some "Scale"%string
  /\ songTempos !! 0%nat = Some 150
  /\ (forall st : state,
         songIndex st = 0 ->
         songPlaying st <> 0 -> no_click (btnIn st) -> lcd_ready (lcd st) ->
         exists st',
           playSelectedSong st = Ok st'
           /\ serialOut st' = serialOut st ++ frames [0; 1; 2; 3; 4; 5; 6; 7] ++ CRLF
           /\ frames [0; 1; 2; 3; 4; 5; 6; 7] = scale_wire
           /\ length [0; 1; 2; 3; 4; 5; 6; 7] = 8%nat
           /\ songPlaying st' = 0 /\ rotaryDisabled st' = 0
           /\ lcdText (lcd st') !! 0%nat = Some top_line_selecting).
Proof.
  assert (G : forall (idx : nat) (data : list Z) (st : state),
             songData !! idx = Some data -> last data = Some 0 ->
             songIndex st = Z.of_nat idx ->
             songPlaying st <> 0 -> no_click (btnIn st) -> lcd_ready (lcd st) ->
             exists st',
               playSelectedSong st = Ok st'
               /\ serialOut st' = serialOut st ++ frames (Spec.transmissions data) ++ CRLF
               /\ songPlaying st' = 0 /\ rotaryDisabled st' = 0
               /\ lcdText (lcd st') !! 0%nat = Some top_line_selecting).
  { intros idx data st HD _ HI HP HQ (row0 & row1 & HT & L0 & L1).
    assert (HR : 0 <= songIndex st < SONG_COUNT).
    { apply lookup_lt_Some in HD. change (length songData) with 12%nat in HD.
      unfold SONG_COUNT. lia. }
    destruct (playSelectedSong_spec st HR)
      as (t & data' & st1 & k & b & _ & HD' & PL & _ & R & K & _ & _ & S & F & Q).
    rewrite HI, Nat2Z.id, HD in HD'. injection HD' as <-.
    destruct (playable_spec t data PL) as (_ & _ & HB & _).
    destruct (Q HP HQ) as (P1 & _ & E & FA).
    destruct (enterPlayback_fields t st) as (F0 & _).
    destruct (leavePlayback_fields st1) as (L1' & L2 & L3 & L4 & _).
    rewrite F0 in F. unfold frozen in F.
    assert (HL : lcd st1 = lcd_print "--- Playing  ---" (lcd_setCursor 0 0 (lcd st)))
      by congruence.
    exists (leavePlayback st1). rewrite R, L1', L2, L3, L4, S.
    rewrite (song_wire_take data k b K E FA), (song_wire_spec data HB), <- app_assoc.
    repeat split.
    rewrite (headline_text "Select a Song   " (lcd st1) top_line_playing row1);
      [reflexivity | reflexivity | | reflexivity].
    rewrite HL. apply (headline_text "--- Playing  ---" (lcd st) row0 row1);
      [reflexivity | exact HT | exact L0]. }
  split.
  { intros data st HL HB HT HP HQ.
    destruct (playLoop_spec data st HT (last_has_end data HL))
      as (st' & k & b & L & K & _ & _ & S & _ & _ & _ & _ & Q).
    destruct (Q HP HQ) as (P1 & _ & E & FA).
    exists st'. rewrite L, S, (song_wire_take data k b K E FA), (song_wire_spec data HB).
    auto. }
  split; [exact G|]. split; [reflexivity|]. split; [reflexivity|].
  intros st HI HP HQ HL.
  destruct (G 0%nat songData0 st eq_refl eq_refl HI HP HQ HL) as (st' & R & S & P & D & T).
  exists st'. repeat split; assumption || reflexivity.
Qed.

Lemma playSelectedSong_transmits_notes_witness :
  exists st',
    playSelectedSong (set_songPlaying 1 (boot [] [])) = Ok st'
    /\ serialOut st' = serialOut (set_songPlaying 1 (boot [] []))
                       ++ frames [0; 1; 2; 3; 4; 5; 6; 7] ++ CRLF
    /\ frames [0; 1; 2; 3; 4; 5; 6; 7] = scale_wire
    /\ length [0; 1; 2; 3; 4; 5; 6; 7] = 8%nat
    /\ songPlaying st' = 0 /\ rotaryDisabled st' = 0
    /\ lcdText (lcd st') !! 0%nat = Some top_line_selecting.
Proof.
  apply (proj2 (proj2 (proj2 (proj2 playSelectedSong_transmits_notes)))).
  - reflexivity.
  - vm_compute. discriminate.
  - constructor.
  - exists top_line_selecting, (replicate 16 " "%char). vm_compute. auto.
Defined.

(** C9. Playback always comes to an end.  On any sequence that holds an end
    byte (the terminator 0 or a byte above the note range) the loop of
    [playSelectedSong()] returns, whatever the button and the encoder do.
    For every catalog song [playSelectedSong()] returns: its loop stops
    after reading the byte at some offset [k] of the song, which is the
    terminator 0, a byte above the note range, or any byte read once the
    playback flag is cleared; it never reads past the table. *)
Theorem playSelectedSong_terminates :
  (forall data st,
      has_end data -> wrap_ulong (tempo st) <> 0 ->
      exists st' k b,
        playLoop data st = Ok st'
        /\ data !! k = Some b
        /\ songDataPtr st' = songDataPtr st + Z.of_nat k + 1
        /\ (b = 0 \/ b > 0x8C \/ songPlaying st' = 0))
  /\ (forall st,
         0 <= songIndex st < SONG_COUNT ->
         exists t data st1 st' k b,
           songTempos !! Z.to_nat (songIndex st) = Some t
           /\ songData !! Z.to_nat (songIndex st) = Some data
           /\ playLoop data (enterPlayback t st) = Ok st1
           /\ playSelectedSong st = Ok st'
           /\ st' = leavePlayback st1
           /\ data !! k = Some b
           /\ songDataPtr st' = Z.of_nat k + 1
           /\ (b = 0 \/ b > 0x8C \/ songPlaying st1 = 0)).
Proof.
  split.
  { intros data st HE HT.
    destruct (playLoop_spec data st HT HE) as (st' & k & b & L & K & C & P & _).
    exists st', k, b. auto. }
  intros st HI.
  destruct (playSelectedSong_spec st HI)
    as (t & data & st1 & k & b & HT & HD & _ & L & R & K & C & P & _).
  destruct (leavePlayback_fields st1) as (_ & _ & _ & _ & F).
  exists t, data, st1, (leavePlayback st1), k, b.
  repeat split; auto; congruence.
Qed.

Lemma playSelectedSong_terminates_witness :
  exists t data st1 st' k b,
    songTempos !! Z.to_nat (songIndex (set_songPlaying 1 (boot [Click] []))) = Some t
    /\ songData !! Z.to_nat (songIndex (set_songPlaying 1 (boot [Click] []))) = Some data
    /\ playLoop data (enterPlayback t (set_songPlaying 1 (boot [Click] []))) = Ok st1
    /\ playSelectedSong (set_songPlaying 1 (boot [Click] [])) = Ok st'
    /\ st' = leavePlayback st1
    /\ data !! k = Some b
    /\ songDataPtr st' = Z.of_nat k + 1
    /\ (b = 0 \/ b > 0x8C \/ songPlaying st1 = 0).
Proof.
  apply (proj2 playSelectedSong_terminates (set_songPlaying 1 (boot [Click] []))).
  vm_compute. split; [discriminate | reflexivity].
Defined.

(** ** Selection *)

(** C3, as the code has it.  Rotation that arrives while
    [playSelectedSong()] runs is not recorded: [rotaryDisabled] is 1 from
    entry to exit, so [PinA()] and [PinB()] return at once.  Playback of a
    catalog song leaves the selection index, the changed flag, the detent
    flags and the title line of the display as they were when it started,
    and enables rotation again on return; from then on a detent is
    recorded as in selection mode. *)
Theorem rotation_ignored_during_playback :
  (forall i st, rotaryDisabled st <> 0 -> interrupt i st = st)
  /\ (forall t st, rotaryDisabled (enterPlayback t st) = 1)
  /\ (forall st,
         0 <= songIndex st < SONG_COUNT ->
         exists st',
           playSelectedSong st = Ok st'
           /\ rotaryCount st' = rotaryCount st /\ rotaryChanged st' = rotaryChanged st
           /\ songIndex st' = songIndex st
           /\ aFlag st' = aFlag st /\ bFlag st' = bFlag st
           /\ rotaryDisabled st' = 0
           /\ (lcd_ready (lcd st) ->
               lcdText (lcd st') !! 1%nat = lcdText (lcd st) !! 1%nat))
  /\ (forall st,
         rotaryDisabled st = 0 -> aFlag st <> 0 ->
         0 <= rotaryCount st <= SONG_COUNT - 1 ->
         rotaryCount (interrupt (mkIrq IntA 12) st)
         = Z.min (rotaryCount st + 1) (SONG_COUNT - 1)).
Proof.
  split; [exact interrupt_disabled|].
  split.
  { intros t st. destruct (enterPlayback_fields t st) as (F & _).
    unfold frozen in F. congruence. }
  split.
  { intros st HI.
    destruct (playSelectedSong_keeps st HI)
      as (st' & bytes & R & _ & _ & D & C & G & I & A & B & L).
    exists st'. repeat split; auto.
    intros (row0 & row1 & HT & L0 & L1). rewrite L, HT.
    rewrite (headline_text "Select a Song   " _ top_line_playing row1);
      [reflexivity | reflexivity | | reflexivity].
    apply (headline_text "--- Playing  ---" (lcd st) row0 row1);
      [reflexivity | exact HT | exact L0]. }
  intros st HD HA HR. unfold interrupt, PinA. cbn [irqPin irqPIND].
  rewrite HD. cbn [Z.eqb negb]. cbv zeta. cbn [reading set_reading aFlag].
  change (Z.land 12 12 =? 12) with true.
  destruct (Z.eqb_spec (aFlag st) 0) as [E|_]; [contradiction|]. cbn [negb andb].
  change (rotaryCount (set_aFlag 0 (set_bFlag 0 (rotaryUp (set_reading (Z.land 12 12) st)))))
    with (rotaryCount (rotaryUp (set_reading (Z.land 12 12) st))).
  rewrite rotaryUp_clamps by exact HR. reflexivity.
Qed.

Lemma rotation_ignored_during_playback_witness :
  exists st',
    playSelectedSong (set_songPlaying 1 (boot [] [[mkIrq IntA 12]])) = Ok st'
    /\ rotaryCount st' = rotaryCount (set_songPlaying 1 (boot [] [[mkIrq IntA 12]]))
    /\ rotaryChanged st' = rotaryChanged (set_songPlaying 1 (boot [] [[mkIrq IntA 12]]))
    /\ songIndex st' = songIndex (set_songPlaying 1 (boot [] [[mkIrq IntA 12]]))
    /\ aFlag st' = aFlag (set_songPlaying 1 (boot [] [[mkIrq IntA 12]]))
    /\ bFlag st' = bFlag (set_songPlaying 1 (boot [] [[mkIrq IntA 12]]))
    /\ rotaryDisabled st' = 0
    /\ (lcd_ready (lcd (set_songPlaying 1 (boot [] [[mkIrq IntA 12]]))) ->
        lcdText (lcd st') !! 1%nat
        = lcdText (lcd (set_songPlaying 1 (boot [] [[mkIrq IntA 12]]))) !! 1%nat).
Proof.
  apply (proj1 (proj2 (proj2 rotation_ignored_during_playback))).
  vm_compute. split; [discriminate | reflexivity].
Defined.

(** C3 as stated fails.  After one round of [loop()] the click has set the
    playback flag and [PinB()] has armed [aFlag]; the rising edge of pin A at
    the detent, which [PinA()] would record by moving the selection from 0
    to 1, arrives during the first wait of playback and is lost: when
    [playSelectedSong()] returns the interrupt queue is empty, the selection
    index is still 0 and the changed flag is still clear. *)
Lemma rotation_during_playback_counterexample :
  exists st st',
    run 1 (boot [Click] [[mkIrq IntB 8]; [mkIrq IntA 12]]) = Ok st
    /\ songPlaying st = 1 /\ aFlag st = 1 /\ rotaryCount st = 0
    /\ irqIn st = [[mkIrq IntA 12]]
    /\ rotaryCount (interrupt (mkIrq IntA 12) st) = 1
    /\ playSelectedSong st = Ok st'
    /\ irqIn st' = []
    /\ rotaryCount st' = 0 /\ rotaryChanged st' = 0
    /\ rotaryCount st' <> rotaryCount (interrupt (mkIrq IntA 12) st).
Proof.
  eexists. eexists.
  split; [vm_compute; reflexivity|].
  do 5 (split; [vm_compute; reflexivity|]).
  split; [vm_compute; reflexivity|].
  do 3 (split; [vm_compute; reflexivity|]).
  vm_compute. discriminate.
Qed.

(** C8. The selection index stays within the catalog and is clamped, not
    wrapped: on a state whose index is in range [rotaryUp()] sets it to
    min (index + 1, SONG_COUNT - 1) and [rotaryDown()] to max (index - 1, 0),
    so the last index stays the last and index 0 stays 0; the interrupt
    routines keep it in range, and it is in range after every round of
    [loop()] from [setup()] on, whatever the button and the encoder do. *)
Theorem selection_index_clamped :
  (forall st,
      0 <= rotaryCount st <= SONG_COUNT - 1 ->
      rotaryCount (rotaryUp st) = Z.min (rotaryCount st + 1) (SONG_COUNT - 1)
      /\ rotaryCount (rotaryDown st) = Z.max (rotaryCount st - 1) 0
      /\ 0 <= rotaryCount (rotaryUp st) <= SONG_COUNT - 1
      /\ 0 <= rotaryCount (rotaryDown st) <= SONG_COUNT - 1)
  /\ (forall st, rotaryCount st = SONG_COUNT - 1 ->
                 rotaryCount (rotaryUp st) = SONG_COUNT - 1)
  /\ (forall st, rotaryCount st = 0 -> rotaryCount (rotaryDown st) = 0)
  /\ (forall i st,
         0 <= rotaryCount st <= SONG_COUNT - 1 ->
         0 <= rotaryCount (interrupt i st) <= SONG_COUNT - 1)
  /\ (forall n buttons irqs,
         exists st, run n (boot buttons irqs) = Ok st
                    /\ 0 <= rotaryCount st <= SONG_COUNT - 1
                    /\ 0 <= songIndex st <= SONG_COUNT - 1).
Proof.
  split.
  { intros st H. rewrite rotaryUp_clamps, rotaryDown_clamps by exact H. lia. }
  split.
  { intros st H. rewrite rotaryUp_clamps by (unfold SONG_COUNT in *; lia). lia. }
  split.
  { intros st H. rewrite rotaryDown_clamps by (unfold SONG_COUNT in *; lia). lia. }
  split; [exact interrupt_range|].
  intros n buttons irqs. destruct (boot_invariant buttons irqs) as (HS & HW).
  destruct (run_invariant n _ HS HW) as (st & R & (H1 & H2) & _).
  exists st. auto.
Qed.

Lemma selection_index_clamped_witness :
  rotaryCount (rotaryUp (set_rotaryCount 11 (boot [] []))) = Z.min (11 + 1) (SONG_COUNT - 1)
  /\ rotaryCount (rotaryDown (boot [] [])) = Z.max (0 - 1) 0.
Proof.
  destruct selection_index_clamped as (H & _).
  split.
  - apply (H (set_rotaryCount 11 (boot [] []))). vm_compute. split; discriminate.
  - apply (H (boot [] [])). vm_compute. split; discriminate.
Defined.

(** ** Serial protocol *)

(** C10. Whatever the program transmits is made of commands with board
    address 0 and a channel mask with exactly one bit set, 1 shifted left by
    a channel from 0 to 7 (and of the line end after each song):
    [playNote()], the only caller of [sendMotorShieldCommand()], sends
    nothing or sends (0, 1 << ch) for such a channel; the frame of such a
    command is [<00] followed by the two hexadecimal digits of the mask and
    [>]; and after any number of rounds of [loop()] from [setup()] on the
    serial output consists of such frames and line ends only. *)
Theorem commands_have_one_channel :
  (forall note st,
      playNote note st = st
      \/ exists ch, 0 <= ch <= 7
                    /\ playNote note st = sendMotorShieldCommand 0 (Z.shiftl 1 ch) st
                    /\ sendMotorShieldCommand 0 (Z.shiftl 1 ch) st
                       = Serial_write (command_text 0 (Z.shiftl 1 ch)) st
                    /\ one_bit (Z.shiftl 1 ch))
  /\ (forall ch, 0 <= ch <= 7 ->
                 forall i, 0 <= i -> Z.testbit (Z.shiftl 1 ch) i = (i =? ch))
  /\ (forall n buttons irqs,
         exists st, run n (boot buttons irqs) = Ok st /\ wire_ok (serialOut st)).
Proof.
  split.
  { intros note st. rewrite playNote_wire. unfold note_wire.
    destruct (defined_note note) eqn:D.
    - right. pose proof (noteToMotorShieldChannel_defined note D) as R.
      exists (noteToMotorShieldChannel note). rewrite Z.shiftl_1_l.
      assert (B : is_byte (2 ^ noteToMotorShieldChannel note)).
      { unfold is_byte. split; [apply Z.pow_nonneg; lia|].
        assert (2 ^ noteToMotorShieldChannel note <= 2 ^ 7) by (apply Z.pow_le_mono_r; lia).
        change (2 ^ 7) with 128 in *. lia. }
      rewrite sendMotorShieldCommand_wire by (exact B || (unfold is_byte; lia)).
      repeat split; try lia. apply one_bit_channel. exact R.
    - left. apply Serial_write_nil. }
  split.
  { intros ch H i Hi. rewrite Z.shiftl_1_l, Z.pow2_bits_eqb by lia. apply Z.eqb_sym. }
  intros n buttons irqs. destruct (boot_invariant buttons irqs) as (HS & HW).
  destruct (run_invariant n _ HS HW) as (st & R & _ & W).
  exists st. auto.
Qed.

Lemma commands_have_one_channel_witness :
  Z.testbit (Z.shiftl 1 3) 3 = (3 =? 3) /\ Z.testbit (Z.shiftl 1 3) 4 = (4 =? 3).
Proof.
  split; apply (proj1 (proj2 commands_have_one_channel)); lia.
Defined.

(** * Further properties of the sketch *)

(** ** The command frame *)

Lemma hexDigitValue_digitChar v : 0 <= v <= 15 -> hexDigitValue (digitChar v) = Some v.
Proof.
  intros H.
  assert (C : v = 0 \/ v = 1 \/ v = 2 \/ v = 3 \/ v = 4 \/ v = 5 \/ v = 6 \/ v = 7
              \/ v = 8 \/ v = 9 \/ v = 10 \/ v = 11 \/ v = 12 \/ v = 13 \/ v = 14 \/ v = 15)
    by lia.
  repeat (destruct C as [->|C]; [reflexivity|]). subst v. reflexivity.
Qed.

Lemma hexPairValue_hex2 v :
  is_byte v ->
  match hex2 v with
  | [hi; lo] => hexPairValue hi lo = Some v
  | _ => False
  end.
Proof.
  unfold is_byte, hex2, hexPairValue. intros H.
  assert (0 <= v / 16 <= 15).
  { assert (v / 16 < 16) by (apply Z.div_lt_upper_bound; lia).
    split; [apply Z.div_pos; lia | lia]. }
  assert (0 <= v mod 16 <= 15) by (pose proof (Z.mod_pos_bound v 16); lia).
  rewrite !hexDigitValue_digitChar by assumption.
  f_equal. pose proof (Z.div_mod v 16). lia.
Qed.

Lemma parse_command_text boardNum pdata :
  is_byte boardNum -> is_byte pdata ->
  parse_command (command_text boardNum pdata) = Some (boardNum, pdata).
Proof.
  intros HB HP.
  pose proof (hexPairValue_hex2 boardNum HB) as A.
  pose proof (hexPairValue_hex2 pdata HP) as B.
  unfold command_text. unfold hex2 in *. cbn [app parse_command].
  change (Ascii.eqb "<" "<" && Ascii.eqb ">" ">") with true. cbv iota.
  rewrite A, B. reflexivity.
Qed.

(** X1. [sendMotorShieldCommand()] with a board number and a mask that are
    bytes appends a frame of exactly six characters to the serial line and
    changes nothing else; read back as [<], two hexadecimal digits, two
    hexadecimal digits, [>], the frame gives the board number and the mask
    again, and two commands that leave the same state are the same command. *)
Theorem sendMotorShieldCommand_round_trip (boardNum pdata : Z) (st : state) :
  is_byte boardNum -> is_byte pdata ->
  exists frame,
    sendMotorShieldCommand boardNum pdata st = Serial_write frame st
    /\ serialOut (sendMotorShieldCommand boardNum pdata st) = serialOut st ++ frame
    /\ length frame = 6%nat
    /\ parse_command frame = Some (boardNum, pdata)
    /\ forall boardNum' pdata',
         is_byte boardNum' -> is_byte pdata' ->
         sendMotorShieldCommand boardNum' pdata' st
         = sendMotorShieldCommand boardNum pdata st ->
         boardNum' = boardNum /\ pdata' = pdata.
Proof.
  intros HB HP. exists (command_text boardNum pdata).
  rewrite sendMotorShieldCommand_wire by assumption.
  split; [reflexivity|]. split; [reflexivity|]. split; [reflexivity|].
  split; [apply parse_command_text; assumption|].
  intros b' p' HB' HP' E.
  rewrite sendMotorShieldCommand_wire in E by assumption.
  apply (f_equal serialOut) in E. unfold Serial_write in E.
  cbn [serialOut set_serialOut] in E. apply app_inv_head in E.
  pose proof (parse_command_text b' p' HB' HP') as P'.
  rewrite E, (parse_command_text boardNum pdata HB HP) in P'.
  split; congruence.
Qed.

Lemma sendMotorShieldCommand_round_trip_witness :
  exists frame,
    sendMotorShieldCommand 0x1F 0xA0 (boot [] []) = Serial_write frame (boot [] [])
    /\ serialOut (sendMotorShieldCommand 0x1F 0xA0 (boot [] []))
       = serialOut (boot [] []) ++ frame
    /\ length frame = 6%nat
    /\ parse_command frame = Some (0x1F, 0xA0)
    /\ forall boardNum' pdata',
         is_byte boardNum' -> is_byte pdata' ->
         sendMotorShieldCommand boardNum' pdata' (boot [] [])
         = sendMotorShieldCommand 0x1F 0xA0 (boot [] []) ->
         boardNum' = 0x1F /\ pdata' = 0xA0.
Proof.
  apply (sendMotorShieldCommand_round_trip 0x1F 0xA0 (boot [] []));
    unfold is_byte; lia.
Defined.

(** ** Turning the knob *)

(** X2. Detents add up and saturate: from an index in range, [k] calls of
    [rotaryUp()] give min (index + k, SONG_COUNT - 1) and [k] calls of
    [rotaryDown()] give max (index - k, 0). *)
Theorem detents_accumulate (k : nat) (st : state) :
  0 <= rotaryCount st <= SONG_COUNT - 1 ->
  rotaryCount (Nat.iter k rotaryUp st) = Z.min (rotaryCount st + Z.of_nat k) (SONG_COUNT - 1)
  /\ rotaryCount (Nat.iter k rotaryDown st) = Z.max (rotaryCount st - Z.of_nat k) 0.
Proof.
  intros H. induction k as [|k [IHu IHd]].
  - change (Nat.iter 0 rotaryUp st) with st. change (Nat.iter 0 rotaryDown st) with st.
    change (Z.of_nat 0) with 0. unfold SONG_COUNT in *. lia.
  - change (Nat.iter (S k) rotaryUp st) with (rotaryUp (Nat.iter k rotaryUp st)).
    change (Nat.iter (S k) rotaryDown st) with (rotaryDown (Nat.iter k rotaryDown st)).
    rewrite rotaryUp_clamps, rotaryDown_clamps; rewrite ?IHu, ?IHd;
      unfold SONG_COUNT in *; lia.
Qed.

Lemma detents_accumulate_witness :
  rotaryCount (Nat.iter 5 rotaryUp (set_rotaryCount 9 (boot [] [])))
  = Z.min (9 + Z.of_nat 5) (SONG_COUNT - 1)
  /\ rotaryCount (Nat.iter 5 rotaryDown (set_rotaryCount 9 (boot [] [])))
     = Z.max (9 - Z.of_nat 5) 0.
Proof.
  apply (detents_accumulate 5 (set_rotaryCount 9 (boot [] []))).
  vm_compute. split; discriminate.
Defined.

(** X3. A step back undoes a step forward except at the ends of the
    catalog: up then down returns to the index unless it was the last one
    (then it ends one below), down then up returns to it unless it was 0
    (then it ends at 1); and a step against the end stop leaves the index
    but still raises [rotaryChanged], so the title is printed again. *)
Theorem detent_undo (st : state) :
  0 <= rotaryCount st <= SONG_COUNT - 1 ->
  rotaryCount (rotaryDown (rotaryUp st))
  = (if rotaryCount st =? SONG_COUNT - 1 then SONG_COUNT - 2 else rotaryCount st)
  /\ rotaryCount (rotaryUp (rotaryDown st))
     = (if rotaryCount st =? 0 then 1 else rotaryCount st)
  /\ rotaryChanged (rotaryUp st) = 1 /\ rotaryChanged (rotaryDown st) = 1.
Proof.
  intros H.
  pose proof (rotaryUp_clamps st H) as U. pose proof (rotaryDown_clamps st H) as D.
  assert (HU : 0 <= rotaryCount (rotaryUp st) <= SONG_COUNT - 1)
    by (unfold SONG_COUNT in *; lia).
  assert (HD : 0 <= rotaryCount (rotaryDown st) <= SONG_COUNT - 1)
    by (unfold SONG_COUNT in *; lia).
  pose proof (rotaryDown_clamps _ HU) as DU. pose proof (rotaryUp_clamps _ HD) as UD.
  unfold SONG_COUNT in *.
  split; [destruct (Z.eqb_spec (rotaryCount st) (12 - 1)); lia|].
  split; [destruct (Z.eqb_spec (rotaryCount st) 0); lia|].
  split; reflexivity.
Qed.

Lemma detent_undo_witness :
  rotaryCount (rotaryDown (rotaryUp (set_rotaryCount 11 (boot [] []))))
  = (if rotaryCount (set_rotaryCount 11 (boot [] [])) =? SONG_COUNT - 1
     then SONG_COUNT - 2 else rotaryCount (set_rotaryCount 11 (boot [] [])))
  /\ rotaryCount (rotaryUp (rotaryDown (set_rotaryCount 11 (boot [] []))))
     = (if rotaryCount (set_rotaryCount 11 (boot [] [])) =? 0
        then 1 else rotaryCount (set_rotaryCount 11 (boot [] [])))
  /\ rotaryChanged (rotaryUp (set_rotaryCount 11 (boot [] []))) = 1
  /\ rotaryChanged (rotaryDown (set_rotaryCount 11 (boot [] []))) = 1.
Proof.
  apply (detent_undo (set_rotaryCount 11 (boot [] []))).
  vm_compute. split; discriminate.
Defined.

(** ** The encoder interrupts *)

Lemma PinB_arms p st :
  rotaryDisabled st = 0 -> Z.land p 0xC = 8 -> PinB p st = set_aFlag 1 (set_reading 8 st).
Proof.
  intros HD HP. unfold PinB. rewrite HD. cbn [Z.eqb negb]. cbv zeta.
  cbn [reading set_reading]. rewrite HP. reflexivity.
Qed.

Lemma PinA_arms p st :
  rotaryDisabled st = 0 -> Z.land p 0xC = 4 -> PinA p st = set_bFlag 1 (set_reading 4 st).
Proof.
  intros HD HP. unfold PinA. rewrite HD. cbn [Z.eqb negb]. cbv zeta.
  cbn [reading set_reading]. rewrite HP. reflexivity.
Qed.

Lemma PinA_detent p st :
  rotaryDisabled st = 0 -> Z.land p 0xC = 12 ->
  PinA p st
  = if aFlag st =? 0 then set_reading 12 st
    else set_aFlag 0 (set_bFlag 0 (rotaryUp (set_reading 12 st))).
Proof.
  intros HD HP. unfold PinA. rewrite HD. cbn [Z.eqb negb]. cbv zeta.
  cbn [reading set_reading aFlag]. rewrite HP. cbn [Z.eqb Pos.eqb].
  destruct (aFlag st =? 0); reflexivity.
Qed.

Lemma PinB_detent p st :
  rotaryDisabled st = 0 -> Z.land p 0xC = 12 ->
  PinB p st
  = if bFlag st =? 0 then set_reading 12 st
    else set_aFlag 0 (set_bFlag 0 (rotaryDown (set_reading 12 st))).
Proof.
  intros HD HP. unfold PinB. rewrite HD. cbn [Z.eqb negb]. cbv zeta.
  cbn [reading set_reading bFlag]. rewrite HP. cbn [Z.eqb Pos.eqb].
  destruct (bFlag st =? 0); reflexivity.
Qed.

Lemma PinB_arms_fields p st :
  rotaryDisabled st = 0 -> Z.land p 0xC = 8 ->
  aFlag (PinB p st) = 1 /\ rotaryCount (PinB p st) = rotaryCount st
  /\ rotaryDisabled (PinB p st) = 0.
Proof. intros HD HP. rewrite (PinB_arms p st HD HP). auto. Qed.

Lemma PinA_arms_fields p st :
  rotaryDisabled st = 0 -> Z.land p 0xC = 4 ->
  bFlag (PinA p st) = 1 /\ rotaryCount (PinA p st) = rotaryCount st
  /\ rotaryDisabled (PinA p st) = 0.
Proof. intros HD HP. rewrite (PinA_arms p st HD HP). auto. Qed.

Lemma rotaryUp_disabled st : rotaryDisabled (rotaryUp st) = rotaryDisabled st.
Proof. unfold rotaryUp. cbv zeta. cbn. destruct (_ >? _); reflexivity. Qed.

Lemma rotaryDown_disabled st : rotaryDisabled (rotaryDown st) = rotaryDisabled st.
Proof. unfold rotaryDown. cbv zeta. cbn. destruct (_ <? _); reflexivity. Qed.

Lemma PinA_counts p st :
  rotaryDisabled st = 0 -> Z.land p 0xC = 12 -> aFlag st <> 0 ->
  0 <= rotaryCount st <= SONG_COUNT - 1 ->
  rotaryCount (PinA p st) = Z.min (rotaryCount st + 1) (SONG_COUNT - 1)
  /\ rotaryChanged (PinA p st) = 1 /\ aFlag (PinA p st) = 0 /\ bFlag (PinA p st) = 0
  /\ rotaryDisabled (PinA p st) = 0.
Proof.
  intros HD HP HA HR. rewrite (PinA_detent p st HD HP).
  destruct (Z.eqb_spec (aFlag st) 0) as [E|_]; [contradiction|].
  pose proof (rotaryUp_clamps (set_reading 12 st) HR) as U.
  pose proof (rotaryUp_disabled (set_reading 12 st)) as D.
  repeat split; try reflexivity; [exact U | exact (eq_trans D HD)].
Qed.

Lemma PinB_counts p st :
  rotaryDisabled st = 0 -> Z.land p 0xC = 12 -> bFlag st <> 0 ->
  0 <= rotaryCount st <= SONG_COUNT - 1 ->
  rotaryCount (PinB p st) = Z.max (rotaryCount st - 1) 0
  /\ rotaryChanged (PinB p st) = 1 /\ aFlag (PinB p st) = 0 /\ bFlag (PinB p st) = 0
  /\ rotaryDisabled (PinB p st) = 0.
Proof.
  intros HD HP HA HR. rewrite (PinB_detent p st HD HP).
  destruct (Z.eqb_spec (bFlag st) 0) as [E|_]; [contradiction|].
  pose proof (rotaryDown_clamps (set_reading 12 st) HR) as U.
  pose proof (rotaryDown_disabled (set_reading 12 st)) as D.
  repeat split; try reflexivity; [exact U | exact (eq_trans D HD)].
Qed.

Lemma PinA_unarmed p st :
  rotaryDisabled st = 0 -> Z.land p 0xC = 12 -> aFlag st = 0 ->
  rotaryCount (PinA p st) = rotaryCount st.
Proof. intros HD HP HA. rewrite (PinA_detent p st HD HP), HA. reflexivity. Qed.

Lemma PinB_unarmed p st :
  rotaryDisabled st = 0 -> Z.land p 0xC = 12 -> bFlag st = 0 ->
  rotaryCount (PinB p st) = rotaryCount st.
Proof. intros HD HP HA. rewrite (PinB_detent p st HD HP), HA. reflexivity. Qed.

(** X4. One detent is one step.  With rotation enabled and the index in
    range, the clockwise sequence (pin B rises with the two pins reading
    1000, then pin A rises at the detent, reading 1100) moves the index up by
    one, clamped, whatever the detent flags were before, raises
    [rotaryChanged] and clears both flags, so that a further rising edge of
    pin A at the detent counts nothing; the counter-clockwise sequence (pin A
    at 0100, then pin B at 1100) moves it down by one in the same way.
    Only the bits 2 and 3 of the port matter. *)
Theorem quadrature_detent (st : state) (pArm pDetent pArm' : Z) :
  rotaryDisabled st = 0 -> 0 <= rotaryCount st <= SONG_COUNT - 1 ->
  Z.land pArm 0xC = 8 -> Z.land pDetent 0xC = 12 -> Z.land pArm' 0xC = 4 ->
  rotaryCount (PinA pDetent (PinB pArm st)) = Z.min (rotaryCount st + 1) (SONG_COUNT - 1)
  /\ rotaryChanged (PinA pDetent (PinB pArm st)) = 1
  /\ aFlag (PinA pDetent (PinB pArm st)) = 0 /\ bFlag (PinA pDetent (PinB pArm st)) = 0
  /\ rotaryCount (PinA pDetent (PinA pDetent (PinB pArm st)))
     = rotaryCount (PinA pDetent (PinB pArm st))
  /\ rotaryCount (PinB pDetent (PinA pArm' st)) = Z.max (rotaryCount st - 1) 0
  /\ rotaryChanged (PinB pDetent (PinA pArm' st)) = 1
  /\ aFlag (PinB pDetent (PinA pArm' st)) = 0 /\ bFlag (PinB pDetent (PinA pArm' st)) = 0
  /\ rotaryCount (PinB pDetent (PinB pDetent (PinA pArm' st)))
     = rotaryCount (PinB pDetent (PinA pArm' st)).
Proof.
  intros HD HR H8 H12 H4.
  destruct (PinB_arms_fields pArm st HD H8) as (A1 & C1 & D1).
  destruct (PinA_counts pDetent (PinB pArm st) D1 H12) as (C2 & G2 & A2 & B2 & D2);
    [rewrite A1; discriminate | rewrite C1; exact HR |].
  pose proof (PinA_unarmed pDetent _ D2 H12 A2) as C3.
  destruct (PinA_arms_fields pArm' st HD H4) as (A1' & C1' & D1').
  destruct (PinB_counts pDetent (PinA pArm' st) D1' H12) as (C2' & G2' & A2' & B2' & D2');
    [rewrite A1'; discriminate | rewrite C1'; exact HR |].
  pose proof (PinB_unarmed pDetent _ D2' H12 B2') as C3'.
  repeat split; try assumption; congruence.
Qed.

Lemma quadrature_detent_witness :
  rotaryCount (PinA 0xFC (PinB 0x0B (boot [] []))) = Z.min (0 + 1) (SONG_COUNT - 1)
  /\ rotaryCount (PinB 0x0C (PinA 0x04 (set_rotaryCount 3 (boot [] [])))) = Z.max (3 - 1) 0.
Proof.
  split.
  - apply (quadrature_detent (boot [] []) 0x0B 0xFC 0x04); try reflexivity.
    vm_compute. split; discriminate.
  - apply (quadrature_detent (set_rotaryCount 3 (boot [] [])) 0x08 0x0C 0x04); try reflexivity.
    vm_compute. split; discriminate.
Defined.

(** X5. The interrupt routines keep to the encoder variables: whatever the
    pin, the port value and the state, [PinA()] and [PinB()] leave the
    playback flag, the tempo, the song index and data pointer, the
    [rotaryDisabled] gate, the serial line and the display as they are; and
    with the gate closed they change nothing at all. *)
Theorem interrupts_keep_to_the_encoder (i : Irq) (st : state) :
  songPlaying (interrupt i st) = songPlaying st
  /\ tempo (interrupt i st) = tempo st
  /\ songIndex (interrupt i st) = songIndex st
  /\ songDataPtr (interrupt i st) = songDataPtr st
  /\ rotaryDisabled (interrupt i st) = rotaryDisabled st
  /\ serialOut (interrupt i st) = serialOut st
  /\ lcd (interrupt i st) = lcd st
  /\ (rotaryDisabled st <> 0 -> interrupt i st = st).
Proof.
  pose proof (interrupt_beyond i st) as B. unfold beyond_irq in B.
  injection B as E1 E2 E3 E4 E5 E6 E7 E8 E9 E10.
  repeat split; try assumption. apply interrupt_disabled.
Qed.

(** ** The length of a pause *)

Lemma delayTicks_value d t :
  0 <= d <= 255 -> 6 <= t <= 32767 -> delayTicks d t = Ok (750 * d / t).
Proof.
  intros HD HT.
  assert (E : d * 120 * 125 / t / 20 = 750 * d / t).
  { rewrite Z.div_div by lia.
    replace (d * 120 * 125) with (750 * d * 20) by lia.
    apply Z.div_mul_cancel_r; lia. }
  rewrite <- E. apply delayTicks_exact; try lia.
  rewrite E. apply Z.le_trans with (750 * 255 / 6).
  - apply Z.le_trans with (750 * d / 6).
    + apply Z.div_le_compat_l; lia.
    + apply Z.div_le_mono; lia.
  - vm_compute. discriminate.
Qed.

(** X6. For a duration byte and a tempo from 6 beats per minute up (every
    catalog tempo) the tick count of [pause()] is 750 * duration / tempo,
    rounded down: the wait of 20 ms per tick is never longer than the
    nominal 15000 * duration / tempo ms of that many sixteenths and falls
    short of it by less than one tick. *)
Theorem pause_length_accuracy (num16ths tempo : Z) :
  0 <= num16ths <= 255 -> 6 <= tempo <= 32767 ->
  exists n,
    delayTicks num16ths tempo = Ok n
    /\ n = 750 * num16ths / tempo
    /\ 0 <= n <= 31875
    /\ 20 * n <= 15000 * num16ths / tempo < 20 * n + 20.
Proof.
  intros HD HT. exists (750 * num16ths / tempo).
  split; [apply delayTicks_value; assumption|]. split; [reflexivity|].
  assert (P : 0 <= 750 * num16ths / tempo) by (apply Z.div_pos; lia).
  assert (U : 750 * num16ths / tempo <= 31875).
  { apply Z.le_trans with (750 * 255 / 6).
    - apply Z.le_trans with (750 * num16ths / 6).
      + apply Z.div_le_compat_l; lia.
      + apply Z.div_le_mono; lia.
    - vm_compute. discriminate. }
  split; [lia|].
  assert (E : 750 * num16ths / tempo = 15000 * num16ths / tempo / 20).
  { rewrite Z.div_div by lia.
    replace (15000 * num16ths) with (750 * num16ths * 20) by lia.
    symmetry. apply Z.div_mul_cancel_r; lia. }
  rewrite E.
  pose proof (Z.div_mod (15000 * num16ths / tempo) 20).
  pose proof (Z.mod_pos_bound (15000 * num16ths / tempo) 20). lia.
Qed.

Lemma pause_length_accuracy_witness :
  exists n,
    delayTicks 3 160 = Ok n
    /\ n = 750 * 3 / 160
    /\ 0 <= n <= 31875
    /\ 20 * n <= 15000 * 3 / 160 < 20 * n + 20.
Proof. apply (pause_length_accuracy 3 160); lia. Defined.

(** X7. Longer pauses and slower tempos never wait less: for duration
    bytes [d1 <= d2] and tempos [t2 <= t1] from 6 up, the tick count of
    [d1] at [t1] is at most that of [d2] at [t2]. *)
Theorem pause_length_monotone (d1 d2 t1 t2 : Z) :
  0 <= d1 <= d2 -> d2 <= 255 -> 6 <= t2 <= t1 -> t1 <= 32767 ->
  exists n1 n2,
    delayTicks d1 t1 = Ok n1 /\ delayTicks d2 t2 = Ok n2 /\ n1 <= n2.
Proof.
  intros H1 H2 H3 H4. exists (750 * d1 / t1), (750 * d2 / t2).
  split; [apply delayTicks_value; lia|]. split; [apply delayTicks_value; lia|].
  apply Z.le_trans with (750 * d1 / t2).
  - apply Z.div_le_compat_l; lia.
  - apply Z.div_le_mono; lia.
Qed.

Lemma pause_length_monotone_witness :
  exists n1 n2, delayTicks 4 200 = Ok n1 /\ delayTicks 6 120 = Ok n2 /\ n1 <= n2.
Proof. apply (pause_length_monotone 4 6 200 120); lia. Defined.

(** X8. Writing one pause as two changes its length by at most one tick,
    and never makes it longer: for duration bytes [a] and [b] whose sum is a
    byte, the ticks of [a] plus the ticks of [b] are at most the ticks of
    [a + b], and at least the ticks of [a + b] minus 1. *)
Theorem pause_split (a b tempo : Z) :
  0 <= a -> 0 <= b -> a + b <= 255 -> 6 <= tempo <= 32767 ->
  exists na nb nab,
    delayTicks a tempo = Ok na /\ delayTicks b tempo = Ok nb
    /\ delayTicks (a + b) tempo = Ok nab
    /\ na + nb <= nab <= na + nb + 1.
Proof.
  intros HA HB HS HT.
  exists (750 * a / tempo), (750 * b / tempo), (750 * (a + b) / tempo).
  split; [apply delayTicks_value; lia|]. split; [apply delayTicks_value; lia|].
  split; [apply delayTicks_value; lia|].
  pose proof (Z.div_mod (750 * a) tempo). pose proof (Z.mod_pos_bound (750 * a) tempo).
  pose proof (Z.div_mod (750 * b) tempo). pose proof (Z.mod_pos_bound (750 * b) tempo).
  pose proof (Z.div_mod (750 * (a + b)) tempo).
  pose proof (Z.mod_pos_bound (750 * (a + b)) tempo).
  nia.
Qed.

Lemma pause_split_witness :
  exists na nb nab,
    delayTicks 1 160 = Ok na /\ delayTicks 1 160 = Ok nb
    /\ delayTicks (1 + 1) 160 = Ok nab
    /\ na + nb <= nab <= na + nb + 1.
Proof. apply (pause_split 1 1 160); lia. Defined.

(** X9. A negative tempo makes every pause return at once: the division is
    done in [unsigned long], where the tempo is 2^32 minus its size and the
    quotient is 0, so [pause()] runs no tick and leaves the state as it is. *)
Theorem pause_negative_tempo (num16ths : Z) (st : state) :
  0 <= num16ths <= 255 -> -32768 <= tempo st < 0 ->
  delayTicks num16ths (tempo st) = Ok 0 /\ pause num16ths st = Ok st.
Proof.
  intros HD HT.
  assert (E : delayTicks num16ths (tempo st) = Ok 0).
  { unfold delayTicks, wrap_ulong, wrap_int.
    assert (M : tempo st mod 4294967296 = tempo st + 4294967296).
    { symmetry. apply Z.mod_unique with (-1); lia. }
    rewrite M. destruct (Z.eqb_spec (tempo st + 4294967296) 0); [lia|].
    rewrite (Z.mod_small (num16ths * 120)) by lia.
    rewrite (Z.mod_small (num16ths * 120 * 125)) by lia.
    rewrite (Z.div_small (num16ths * 120 * 125)) by lia. reflexivity. }
  split; [exact E|]. unfold pause. rewrite E. reflexivity.
Qed.

Lemma pause_negative_tempo_witness :
  delayTicks 16 (tempo (set_tempo (-150) (boot [Click] []))) = Ok 0
  /\ pause 16 (set_tempo (-150) (boot [Click] [])) = Ok (set_tempo (-150) (boot [Click] [])).
Proof.
  apply (pause_negative_tempo 16 (set_tempo (-150) (boot [Click] []))).
  - lia.
  - vm_compute. split; [discriminate | reflexivity].
Defined.

(** ** The playback loop, further *)

(** X10. Nothing after the first end byte is ever read: two tables that
    agree up to and including an end byte (0 or a byte above 0x8C) are
    played alike from every state. *)
Theorem playLoop_ignores_tail (before : list Z) (e : Z) (rest1 rest2 : list Z) (st : state) :
  end_byte e = true ->
  playLoop (before ++ e :: rest1) st = playLoop (before ++ e :: rest2) st.
Proof.
  intros HE. revert st. induction before as [|b before IH]; intros st.
  - cbn [app playLoop].
    rewrite processSongData_end by (apply end_byte_true; exact HE). reflexivity.
  - cbn [app playLoop].
    destruct (processSongData b (set_songDataPtr (songDataPtr st + 1) st)) as [[r st']|f];
      cbn [bind fst snd]; [|reflexivity].
    destruct (r =? 0); [reflexivity | apply IH].
Qed.

Lemma playLoop_ignores_tail_witness :
  playLoop ([0x80; 4] ++ 0 :: [0x82; 0x84]) (set_tempo 150 (set_songPlaying 1 (boot [] [])))
  = playLoop ([0x80; 4] ++ 0 :: []) (set_tempo 150 (set_songPlaying 1 (boot [] []))).
Proof.
  apply (playLoop_ignores_tail [0x80; 4] 0 [0x82; 0x84] []). reflexivity.
Defined.

(** X11. The loop relies on the end byte: on a table without one, played
    with the flag set and no click, it reads every byte and goes on reading
    past the end of the table. *)
Theorem playLoop_needs_end_byte (data : list Z) (st : state) :
  Forall (fun b => end_byte b = false) data ->
  wrap_ulong (tempo st) <> 0 -> songPlaying st <> 0 -> no_click (btnIn st) ->
  playLoop data st = Fault ReadOutOfBounds.
Proof.
  intros HF. revert st. induction HF as [|b rest Hb _ IH]; intros st HT HP HQ.
  - reflexivity.
  - cbn [playLoop].
    destruct (processSongData_cases b (set_songDataPtr (songDataPtr st + 1) st) HT)
      as [(_ & Hstop) | (st1 & R & _ & _ & _ & T1 & _ & _ & _ & _ & _ & Q1)].
    + apply end_byte_false in Hb. destruct Hstop as [?|[?|?]]; [lia | lia | contradiction].
    + rewrite R. cbn [bind fst snd Z.eqb]. destruct (Q1 HQ) as (P1 & Q1').
      apply IH; [rewrite T1; exact HT | rewrite P1; exact HP | exact Q1'].
Qed.

Lemma playLoop_needs_end_byte_witness :
  playLoop [0x80; 4; 0x82] (set_tempo 150 (set_songPlaying 1 (boot [] [])))
  = Fault ReadOutOfBounds.
Proof.
  apply (playLoop_needs_end_byte [0x80; 4; 0x82]
           (set_tempo 150 (set_songPlaying 1 (boot [] [])))).
  - repeat constructor.
  - vm_compute. discriminate.
  - vm_compute. discriminate.
  - constructor.
Defined.

Lemma processSongData_time b st :
  wrap_ulong (tempo st) <> 0 -> songPlaying st <> 0 -> no_click (btnIn st) ->
  end_byte b = false ->
  exists st',
    processSongData b st = Ok (1, st')
    /\ millis st' = millis st + 20 * byte_ticks (tempo st) b
    /\ tempo st' = tempo st /\ songPlaying st' = songPlaying st
    /\ no_click (btnIn st').
Proof.
  intros HT HP HQ HE. apply end_byte_false in HE. destruct HE as (N0 & NC).
  unfold byte_ticks. destruct (Z.ltb_spec b Note.c) as [Hp|Hn].
  - destruct (pause_runs b st HT) as (n & HN & Hpause).
    exists (pause_loop (Z.to_nat n) st).
    rewrite processSongData_pause, Hpause, HN by assumption.
    destruct (pause_loop_no_click (Z.to_nat n) st HP HQ) as (P & Q & M).
    destruct (pause_loop_io (Z.to_nat n) st) as (_ & _ & T & _).
    repeat split; auto. rewrite M. lia.
  - exists (playNote b st). rewrite processSongData_note by (try split; assumption).
    rewrite playNote_wire. repeat split; auto. cbn. lia.
Qed.

(** X12. The playing time of a sequence is the sum of its pauses: played
    with the flag set and no click, a sequence with an end byte takes 20 ms
    for every tick of every pause before its first end byte, and the notes
    take no time. *)
Theorem playing_time (data : list Z) (st : state) :
  has_end data ->
  wrap_ulong (tempo st) <> 0 -> songPlaying st <> 0 -> no_click (btnIn st) ->
  exists st',
    playLoop data st = Ok st'
    /\ millis st' = millis st + 20 * song_ticks (tempo st) data.
Proof.
  intros HE. revert st. induction data as [|b rest IH]; intros st HT HP HQ.
  { inversion HE. }
  cbn [playLoop song_ticks]. destruct (end_byte b) eqn:E.
  - rewrite processSongData_end by (apply end_byte_true; exact E).
    cbn [bind fst snd Z.eqb]. eexists. split; [reflexivity|]. cbn. lia.
  - destruct (processSongData_time b (set_songDataPtr (songDataPtr st + 1) st) HT HP HQ E)
      as (st1 & R & M & T & P & Q).
    cbn [tempo songPlaying millis set_songDataPtr] in M, T, P.
    rewrite R. cbn [bind fst snd Z.eqb].
    assert (HE' : has_end rest).
    { inversion HE as [? ? Hb|? ? Hr]; subst; [congruence | exact Hr]. }
    destruct (IH HE' st1) as (st' & L & M'); [congruence | congruence | exact Q |].
    exists st'. split; [exact L|]. rewrite M', M, T. lia.
Qed.

Lemma playing_time_witness :
  exists st',
    playLoop [0x80; 4; 0x82; 6; 0] (set_tempo 160 (set_songPlaying 1 (boot [] []))) = Ok st'
    /\ millis st' = millis (set_tempo 160 (set_songPlaying 1 (boot [] [])))
                    + 20 * song_ticks (tempo (set_tempo 160 (set_songPlaying 1 (boot [] []))))
                             [0x80; 4; 0x82; 6; 0].
Proof.
  apply (playing_time [0x80; 4; 0x82; 6; 0] (set_tempo 160 (set_songPlaying 1 (boot [] [])))).
  - apply last_has_end. reflexivity.
  - vm_compute. discriminate.
  - vm_compute. discriminate.
  - constructor.
Defined.

(** X13. Notes that follow one another without a pause cannot be
    interrupted: a sequence with no pause byte is played to its end byte
    whatever the button does, because the button is polled in [pause()]
    only; no button event is consumed, no time passes, and the tempo is not
    used. *)
Theorem notes_without_pause_play_through (data : list Z) (st : state) :
  Forall (fun b => b = 0 \/ Note.c <= b) data -> has_end data ->
  songPlaying st <> 0 ->
  exists st',
    playLoop data st = Ok st'
    /\ serialOut st' = serialOut st ++ song_wire data
    /\ btnIn st' = btnIn st /\ millis st' = millis st
    /\ songPlaying st' = songPlaying st.
Proof.
  intros HF HE. revert st. induction HF as [|b rest Hb _ IH]; intros st HP.
  { inversion HE. }
  cbn [playLoop song_wire]. destruct (end_byte b) eqn:E.
  - rewrite processSongData_end by (apply end_byte_true; exact E).
    cbn [bind fst snd Z.eqb]. eexists. split; [reflexivity|]. cbn.
    rewrite app_nil_r. auto.
  - apply end_byte_false in E. destruct E as (N0 & NC).
    destruct Hb as [?|Hb]; [contradiction|].
    rewrite processSongData_note by (try split; assumption).
    cbn [bind fst snd Z.eqb]. rewrite playNote_wire.
    assert (HE' : has_end rest).
    { inversion HE as [? ? Hb'|? ? Hr]; subst; [|exact Hr].
      apply end_byte_true in Hb'. lia. }
    destruct (IH HE' (Serial_write (note_wire b) (set_songDataPtr (songDataPtr st + 1) st)))
      as (st' & L & S & B & M & P); [exact HP|].
    exists st'. split; [exact L|]. rewrite S, B, M, P.
    unfold byte_wire. destruct (Z.geb_spec b Note.c); [|lia].
    cbn. rewrite <- app_assoc. auto.
Qed.

Lemma notes_without_pause_play_through_witness :
  exists st',
    playLoop [0x80; 0x84; 0x87; 0]
      (set_songPlaying 1 (boot [Click; Click; Click] [])) = Ok st'
    /\ serialOut st' = serialOut (set_songPlaying 1 (boot [Click; Click; Click] []))
                       ++ song_wire [0x80; 0x84; 0x87; 0]
    /\ btnIn st' = btnIn (set_songPlaying 1 (boot [Click; Click; Click] []))
    /\ millis st' = millis (set_songPlaying 1 (boot [Click; Click; Click] []))
    /\ songPlaying st' = songPlaying (set_songPlaying 1 (boot [Click; Click; Click] [])).
Proof.
  apply (notes_without_pause_play_through [0x80; 0x84; 0x87; 0]
           (set_songPlaying 1 (boot [Click; Click; Click] []))).
  - do 3 (constructor; [right; vm_compute; discriminate|]).
    constructor; [left; reflexivity | constructor].
  - apply last_has_end. reflexivity.
  - vm_compute. discriminate.
Defined.

(** ** Writing on the display *)

Lemma overwrite_ge c l (row : list ascii) :
  (length row <= c)%nat -> overwrite c l row = row.
Proof.
  revert c row. induction l as [|x l IH]; intros c row H; cbn; [reflexivity|].
  rewrite list_insert_ge by exact H. apply IH. lia.
Qed.

Lemma overwrite_spec c l (row : list ascii) :
  (c <= length row)%nat ->
  overwrite c l row = take c row ++ take (length row - c) l ++ drop (c + length l) row.
Proof.
  revert c row. induction l as [|x l IH]; intros c row H.
  - cbn [overwrite length]. rewrite take_nil, Nat.add_0_r. cbn [app]. symmetry. apply take_drop.
  - cbn [overwrite length]. destruct (decide (c = length row)) as [->|N].
    + rewrite overwrite_ge by (rewrite length_insert; lia).
      rewrite list_insert_ge by lia.
      rewrite Nat.sub_diag, take_0, take_ge, drop_ge by lia.
      cbn [app]. rewrite app_nil_r. reflexivity.
    + assert (L : (c < length row)%nat) by lia.
      rewrite IH by (rewrite length_insert; lia).
      rewrite length_insert.
      rewrite drop_insert_lt by lia.
      rewrite (take_S_r (<[c:=x]> row) c x) by (apply list_lookup_insert_eq; exact L).
      rewrite take_insert_ge by lia.
      replace (length row - c)%nat with (S (length row - S c)) by lia.
      cbn [take]. rewrite <- app_assoc. cbn [app].
      replace (c + S (length l))%nat with (S c + length l)%nat by lia. reflexivity.
Qed.

Lemma lcd_writes l d :
  fold_left (fun d ch => lcd_write ch d) l d
  = {| lcdCol := lcdCol d + length l; lcdRow := lcdRow d;
       lcdText := alter (overwrite (lcdCol d) l) (lcdRow d) (lcdText d) |}.
Proof.
  revert d. induction l as [|x l IH]; intros d.
  - cbn [fold_left length overwrite]. rewrite Nat.add_0_r.
    rewrite list_alter_id by reflexivity. destruct d; reflexivity.
  - cbn [fold_left]. rewrite IH. destruct d as [c r t].
    unfold lcd_write. cbn [lcdCol lcdRow lcdText length overwrite].
    rewrite list_alter_alter_eq. f_equal. lia.
Qed.

#[local] Transparent lcdPrintProgStr.

Lemma length_chars (str : string) : length (list_ascii_of_string str) = String.length str.
Proof. induction str as [|ch str IH]; cbn; [reflexivity | f_equal; exact IH]. Qed.

Lemma alter_row1 (f : list ascii -> list ascii) r0 r1 :
  alter f 1%nat [r0; r1] = [r0; f r1].
Proof. reflexivity. Qed.

Lemma title_row_length str : length (title_row str) = 16%nat.
Proof.
  unfold title_row. rewrite length_take, length_app, length_replicate, length_chars. lia.
Qed.

Lemma lcdPrintProgStr_text str st row0 row1 :
  (String.length str < 256)%nat ->
  lcdText (lcd st) = [row0; row1] -> length row1 = 16%nat ->
  lcd (lcdPrintProgStr str (on_lcd (lcd_setCursor 0 1) st))
  = {| lcdCol := Nat.max 16 (String.length str); lcdRow := 1;
       lcdText := [row0; title_row str] |}.
Proof.
  intros HL HT HR. unfold lcdPrintProgStr, on_lcd, wrap_byte, LCD_COL_COUNT. cbv zeta.
  cbn [lcd set_lcd]. rewrite Z.mod_small by lia. rewrite Nat2Z.id.
  replace (Z.to_nat (16 - Z.of_nat (String.length str)))
    with (16 - String.length str)%nat by lia.
  rewrite (take_ge (list_ascii_of_string str)) by (rewrite length_chars; lia).
  rewrite !lcd_writes. unfold lcd_setCursor. cbn [lcdCol lcdRow lcdText].
  change (Z.to_nat 0) with 0%nat. change (Z.to_nat 1) with 1%nat.
  rewrite HT, !alter_row1, length_chars, length_replicate. cbn [Nat.add].
  f_equal; [lia|]. f_equal. f_equal.
  rewrite (overwrite_spec 0) by lia.
  rewrite HR, take_0, Nat.sub_0_r, length_chars. cbn [app Nat.add].
  unfold title_row.
  destruct (le_lt_dec (String.length str) 16) as [Hle|Hgt].
  - rewrite overwrite_spec
      by (rewrite length_app, length_take, length_drop, length_chars; lia).
    rewrite length_app, length_take, length_drop, length_chars, length_replicate, HR.
    rewrite (take_ge (list_ascii_of_string str)) by (rewrite length_chars; lia).
    rewrite take_app_length' by (rewrite length_chars; reflexivity).
    rewrite (take_ge (replicate _ _)) by (rewrite length_replicate; lia).
    rewrite drop_ge by (rewrite length_app, length_drop, length_chars; lia).
    rewrite app_nil_r.
    rewrite take_ge by (rewrite length_app, length_replicate, length_chars; lia).
    reflexivity.
  - replace (16 - String.length str)%nat with 0%nat by lia.
    cbn [replicate overwrite]. rewrite app_nil_r.
    rewrite drop_ge by lia. rewrite app_nil_r. reflexivity.
Qed.

(** X16. [lcdPrintProgStr()] fills a whole display row: printed at the
    start of row 1 of a display of two rows of 16 characters, a title of
    fewer than 256 characters leaves in row 1 exactly 16 characters, the
    title followed by blanks, or its first 16 characters if it is longer;
    row 0 and everything outside the display stay as they are, and whatever
    the row showed before is gone. *)
Theorem lcdPrintProgStr_fills_row (str : string) (st : state) (row0 row1 : list ascii) :
  (String.length str < 256)%nat ->
  lcdText (lcd st) = [row0; row1] -> length row1 = 16%nat ->
  lcdText (lcd (lcdPrintProgStr str (on_lcd (lcd_setCursor 0 1) st)))
  = [row0; title_row str]
  /\ length (title_row str) = 16%nat
  /\ ((String.length str <= 16)%nat ->
      title_row str
      = list_ascii_of_string str ++ replicate (16 - String.length str) " "%char)
  /\ ((16 <= String.length str)%nat ->
      title_row str = take 16 (list_ascii_of_string str))
  /\ lcdPrintProgStr str (on_lcd (lcd_setCursor 0 1) st)
     = set_lcd (lcd (lcdPrintProgStr str (on_lcd (lcd_setCursor 0 1) st))) st.
Proof.
  intros HL HT HR.
  rewrite (lcdPrintProgStr_text str st row0 row1 HL HT HR). cbn [lcdText].
  split; [reflexivity|]. split; [apply title_row_length|].
  split; [|split].
  - intros H. unfold title_row. apply take_ge.
    rewrite length_app, length_replicate, length_chars. lia.
  - intros H. unfold title_row. replace (16 - String.length str)%nat with 0%nat by lia.
    cbn [replicate]. rewrite app_nil_r. reflexivity.
  - rewrite <- (lcdPrintProgStr_text str st row0 row1 HL HT HR).
    rewrite lcdPrintProgStr_on_lcd at 1. destruct st; reflexivity.
Qed.

Lemma lcdPrintProgStr_fills_row_witness :
  lcdText (lcd (lcdPrintProgStr "Ode to Joy" (on_lcd (lcd_setCursor 0 1) (boot [] []))))
  = [top_line_selecting; list_ascii_of_string "Ode to Joy      "].
Proof.
  apply (lcdPrintProgStr_fills_row "Ode to Joy" (boot [] [])
           top_line_selecting (replicate 16 " "%char)).
  - vm_compute. lia.
  - vm_compute. reflexivity.
  - reflexivity.
Defined.

(** ** Printing the selected title *)

Lemma printSelectedSong_shape st :
  0 <= rotaryCount st <= SONG_COUNT - 1 ->
  exists title,
    songTitles !! Z.to_nat (rotaryCount st) = Some title
    /\ (String.length title <= 16)%nat
    /\ printSelectedSong st
       = Ok (set_rotaryChanged 0
               (set_rotaryDisabled 0
                  (set_lcd (lcd (lcdPrintProgStr title (on_lcd (lcd_setCursor 0 1) st)))
                     (set_songIndex (rotaryCount st) st)))).
Proof.
  intros H. unfold printSelectedSong. cbv zeta.
  cbn [songIndex on_lcd set_lcd set_rotaryDisabled set_songIndex].
  destruct (catalog_lookup (rotaryCount st)) as (_ & _ & title & _ & _ & RT & _ & _ & _ & HL);
    [lia|].
  assert (LT : songTitles !! Z.to_nat (rotaryCount st) = Some title).
  { unfold pgm_read in RT. destruct (rotaryCount st <? 0); [discriminate|].
    destruct (songTitles !! Z.to_nat (rotaryCount st)); [|discriminate].
    cbn in RT. congruence. }
  exists title. split; [exact LT|]. split; [exact HL|].
  rewrite RT. cbn [bind]. rewrite lcdPrintProgStr_on_lcd.
  f_equal.
Qed.

(** X17. [printSelectedSong()] with the selection in range makes the
    selected song the current one and shows its title: [songIndex] becomes
    [rotaryCount], row 1 of the display becomes the title of that song
    blank-padded to 16 characters, row 0 stays, [rotaryChanged] is cleared
    and rotation is enabled; nothing is sent and the playback flag, the
    clock and the input queues are untouched. *)
Theorem printSelectedSong_shows_title (st : state) (row0 row1 : list ascii) :
  0 <= rotaryCount st <= SONG_COUNT - 1 ->
  lcdText (lcd st) = [row0; row1] -> length row1 = 16%nat ->
  exists st' title,
    printSelectedSong st = Ok st'
    /\ songTitles !! Z.to_nat (rotaryCount st) = Some title
    /\ lcdText (lcd st')
       = [row0; list_ascii_of_string title ++ replicate (16 - String.length title) " "%char]
    /\ songIndex st' = rotaryCount st /\ rotaryCount st' = rotaryCount st
    /\ rotaryChanged st' = 0 /\ rotaryDisabled st' = 0
    /\ serialOut st' = serialOut st /\ songPlaying st' = songPlaying st
    /\ millis st' = millis st /\ btnIn st' = btnIn st /\ irqIn st' = irqIn st.
Proof.
  intros HR HT HL.
  destruct (printSelectedSong_shape st HR) as (title & LT & LL & R).
  eexists. exists title. split; [exact R|]. split; [exact LT|].
  cbn [lcd songIndex rotaryCount rotaryChanged rotaryDisabled serialOut songPlaying millis
         btnIn irqIn set_rotaryChanged set_rotaryDisabled set_lcd set_songIndex].
  rewrite (lcdPrintProgStr_text title st row0 row1) by (assumption || lia).
  cbn [lcdText]. unfold title_row.
  rewrite take_ge by (rewrite length_app, length_replicate, length_chars; lia).
  repeat split; reflexivity.
Qed.

Lemma printSelectedSong_shows_title_witness :
  exists st' title,
    printSelectedSong (set_rotaryCount 6 (boot [] [])) = Ok st'
    /\ songTitles !! Z.to_nat (rotaryCount (set_rotaryCount 6 (boot [] []))) = Some title
    /\ lcdText (lcd st')
       = [top_line_selecting;
          list_ascii_of_string title ++ replicate (16 - String.length title) " "%char]
    /\ songIndex st' = rotaryCount (set_rotaryCount 6 (boot [] []))
    /\ rotaryCount st' = rotaryCount (set_rotaryCount 6 (boot [] []))
    /\ rotaryChanged st' = 0 /\ rotaryDisabled st' = 0
    /\ serialOut st' = serialOut (set_rotaryCount 6 (boot [] []))
    /\ songPlaying st' = songPlaying (set_rotaryCount 6 (boot [] []))
    /\ millis st' = millis (set_rotaryCount 6 (boot [] []))
    /\ btnIn st' = btnIn (set_rotaryCount 6 (boot [] []))
    /\ irqIn st' = irqIn (set_rotaryCount 6 (boot [] [])).
Proof.
  apply (printSelectedSong_shows_title (set_rotaryCount 6 (boot [] []))
           top_line_selecting (replicate 16 " "%char)).
  - vm_compute. split; discriminate.
  - vm_compute. reflexivity.
  - reflexivity.
Defined.

(** ** Between two rounds of the main loop *)

Lemma interrupt_changed i st :
  rotaryChanged (interrupt i st) = 0 ->
  rotaryChanged st = 0 /\ rotaryCount (interrupt i st) = rotaryCount st.
Proof.
  unfold interrupt, PinA, PinB. destruct (irqPin i);
    (destruct (negb (rotaryDisabled st =? 0)); [auto|]); cbv zeta;
    (destruct (_ && _); [cbn; discriminate|]);
    destruct (_ =? _); cbn; auto.
Qed.

Lemma interrupts_changed irqs st :
  rotaryChanged (fold_left (fun s i => interrupt i s) irqs st) = 0 ->
  rotaryChanged st = 0
  /\ rotaryCount (fold_left (fun s i => interrupt i s) irqs st) = rotaryCount st.
Proof.
  revert st. induction irqs as [|i irqs IH]; intros st H; cbn [fold_left] in *; [auto|].
  destruct (IH _ H) as (C & R). destruct (interrupt_changed i st C) as (C' & R').
  split; [exact C' | congruence].
Qed.

Lemma delay_changed ms st :
  rotaryChanged (delay ms st) = 0 ->
  rotaryChanged st = 0 /\ rotaryCount (delay ms st) = rotaryCount st.
Proof.
  unfold delay. cbv zeta. cbn [irqIn set_millis].
  destruct (irqIn st) as [|irqs later]; [cbn; auto|].
  intros H. destruct (interrupts_changed irqs _ H) as (C & R). auto.
Qed.

Lemma btnRot_tick_flag st :
  songPlaying st = 0 \/ songPlaying st = 1 ->
  songPlaying (btnRot_tick st) = 0 \/ songPlaying (btnRot_tick st) = 1.
Proof.
  intros H. unfold btnRot_tick. destruct (btnIn st) as [|[] later]; cbn; auto.
  unfold lnot. destruct (songPlaying st =? 0); auto.
Qed.

Lemma between_rounds_play st :
  between_rounds st ->
  exists sa,
    (if negb (songPlaying st =? 0) then playSelectedSong st else Ok st) = Ok sa
    /\ between_rounds sa.
Proof.
  intros HB. destruct (negb (songPlaying st =? 0)); [|exists st; auto].
  destruct HB as ((HR & HI) & HD & HF & (row1 & HT & HL) & HS & HC).
  destruct (playSelectedSong_keeps st) as (sa & bytes & R & _ & P & D & C & G & I & _ & _ & L);
    [unfold SONG_COUNT in *; lia|].
  assert (T : lcdText (lcd sa) = [top_line_selecting; row1]).
  { rewrite L.
    rewrite (headline_text "Select a Song   " _ top_line_playing row1);
      [reflexivity | reflexivity | | reflexivity].
    apply (headline_text "--- Playing  ---" (lcd st) top_line_selecting row1);
      [reflexivity | exact HT | reflexivity]. }
  exists sa. split; [exact R|]. unfold between_rounds, selection_ok, shows_selection.
  rewrite C, I, D, P, G, T.
  repeat split; auto; try lia.
  - exists row1. auto.
  - destruct HS as [N|(title & HT1 & HT2)]; [left; exact N|].
    right. exists title. split; [exact HT1|]. congruence.
Qed.

Lemma between_rounds_print sa :
  between_rounds sa ->
  exists sb,
    (if negb (rotaryChanged sa =? 0) then printSelectedSong sa else Ok sa) = Ok sb
    /\ between_rounds sb /\ shows_selection sb /\ rotaryChanged sb = 0.
Proof.
  intros HB. destruct (Z.eqb_spec (rotaryChanged sa) 0) as [E|N]; cbn [negb].
  - exists sa. pose proof HB as (_ & _ & _ & _ & [N|S] & _); [contradiction|].
    split; [reflexivity|]. split; [exact HB|]. split; [exact S | exact E].
  - destruct HB as ((HR & HI) & HD & HF & (row1 & HT & HL) & _ & _).
    destruct (printSelectedSong_shape sa HR) as (title & LT & LL & R).
    eexists. split; [exact R|].
    assert (T : lcdText (lcd (lcdPrintProgStr title (on_lcd (lcd_setCursor 0 1) sa)))
                = [top_line_selecting; title_row title]).
    { rewrite (lcdPrintProgStr_text title sa top_line_selecting row1) by (assumption || lia).
      reflexivity. }
    assert (S : shows_selection
                  (set_rotaryChanged 0
                     (set_rotaryDisabled 0
                        (set_lcd (lcd (lcdPrintProgStr title (on_lcd (lcd_setCursor 0 1) sa)))
                           (set_songIndex (rotaryCount sa) sa))))).
    { exists title. cbn [songIndex lcd set_rotaryChanged set_rotaryDisabled set_lcd set_songIndex].
      split; [exact LT | exact T]. }
    split; [|split; [exact S | reflexivity]].
    unfold between_rounds, selection_ok.
    cbn [songIndex rotaryCount rotaryChanged rotaryDisabled songPlaying lcd
           set_rotaryChanged set_rotaryDisabled set_lcd set_songIndex].
    repeat split; auto; try lia.
    exists (title_row title). split; [exact T | apply title_row_length].
Qed.

Lemma between_rounds_poll sb :
  between_rounds sb -> shows_selection sb -> rotaryChanged sb = 0 ->
  between_rounds (delay 100 (btnRot_tick sb))
  /\ shows_selection (delay 100 (btnRot_tick sb)).
Proof.
  intros ((HR & HI) & HD & HF & (row1 & HT & HL) & _ & HC) (title & S1 & S2) HZ.
  destruct (btnRot_tick_frozen sb) as (F & _). unfold frozen in F.
  injection F as F1 F2 F3 F4 F5 F6 F7 F8 F9.
  pose proof (btnRot_tick_flag sb HF) as HF'.
  set (sc := btnRot_tick sb) in *.
  assert (S : shows_selection (delay 100 sc)).
  { exists title. rewrite delay_songIndex, delay_lcd, F2, F9. auto. }
  split; [|exact S].
  unfold between_rounds, selection_ok.
  rewrite delay_songIndex, delay_rotaryDisabled, delay_songPlaying, delay_lcd, F2, F5, F9.
  repeat split; auto; try lia.
  - apply delay_range. rewrite F3. exact HR.
  - apply delay_range. rewrite F3. exact HR.
  - exists row1. auto.
  - intros Z0. destruct (delay_changed 100 sc Z0) as (_ & RC). rewrite RC, F3. auto.
Qed.

Lemma loop_between_rounds st :
  between_rounds st ->
  exists st', loop st = Ok st' /\ between_rounds st' /\ shows_selection st'.
Proof.
  intros HB. unfold loop.
  destruct (between_rounds_play st HB) as (sa & -> & HA). cbn [bind].
  destruct (between_rounds_print sa HA) as (sb & -> & HB' & HS & HZ). cbn [bind].
  eexists. split; [reflexivity|]. apply between_rounds_poll; assumption.
Qed.

Lemma boot_between_rounds buttons irqs : between_rounds (boot buttons irqs).
Proof.
  unfold between_rounds, selection_ok. vm_compute.
  repeat split; try discriminate; auto.
  - eexists. split; reflexivity.
  - left. discriminate.
Qed.

Lemma run_between_rounds n st :
  between_rounds st ->
  exists st', run (S n) st = Ok st' /\ between_rounds st' /\ shows_selection st'.
Proof.
  revert st. induction n as [|n IH]; intros st HB.
  - cbn [run]. destruct (loop_between_rounds st HB) as (st' & -> & H). cbn [bind]. eauto.
  - change (run (S (S n)) st) with (let* s := loop st in run (S n) s).
    destruct (loop_between_rounds st HB) as (st' & -> & H & _). cbn [bind]. apply IH, H.
Qed.


(** ** Without a click *)

Lemma loop_idle m st :
  idle m st -> exists st', loop st = Ok st' /\ idle (m + 100) st'.
Proof.
  intros (HP & HS & HQ & HR & HM). unfold loop. rewrite HP. cbn [Z.eqb negb bind].
  assert (B : exists sb,
             (if negb (rotaryChanged st =? 0) then printSelectedSong st else Ok st) = Ok sb
             /\ idle m sb).
  { destruct (negb (rotaryChanged st =? 0)).
    - destruct (printSelectedSong_shape st HR) as (title & _ & _ & R).
      eexists. split; [exact R|]. unfold idle.
      cbn [songPlaying serialOut btnIn rotaryCount millis
             set_rotaryChanged set_rotaryDisabled set_lcd set_songIndex].
      auto 10.
    - exists st. unfold idle. auto 10. }
  destruct B as (sb & -> & (HP' & HS' & HQ' & HR' & HM')). cbn [bind].
  eexists. split; [reflexivity|].
  destruct (btnRot_tick_no_click sb HQ') as (P & Q).
  destruct (btnRot_tick_frozen sb) as (F & S & M & _). unfold frozen in F.
  injection F as _ _ F3 _ _ _ _ _ _.
  unfold idle. rewrite delay_songPlaying, delay_serialOut, delay_btnIn, delay_millis.
  repeat split; try congruence; try exact Q; try lia.
  - apply delay_range. rewrite F3. exact HR'.
  - apply delay_range. rewrite F3. exact HR'.
Qed.

Lemma run_idle n m st :
  idle m st -> exists st', run n st = Ok st' /\ idle (m + 100 * Z.of_nat n) st'.
Proof.
  revert m st. induction n as [|n IH]; intros m st H.
  - exists st. split; [reflexivity|]. replace (m + 100 * Z.of_nat 0) with m by lia. exact H.
  - cbn [run]. destruct (loop_idle m st H) as (st1 & -> & H1). cbn [bind].
    destruct (IH _ _ H1) as (st' & R & H').
    exists st'. split; [exact R|].
    replace (m + 100 * Z.of_nat (S n)) with (m + 100 + 100 * Z.of_nat n) by lia. exact H'.
Qed.

(** X19. Without a click the device never transmits: if the button reports
    no click, then after any number of rounds of [loop()] from [setup()] on,
    whatever the encoder does, nothing has been written to the serial line,
    no song is playing, and each round has taken its 100 ms. *)
Theorem silent_without_click (n : nat) (buttons : list ButtonEvent) (irqs : list (list Irq)) :
  no_click buttons ->
  exists st,
    run n (boot buttons irqs) = Ok st
    /\ serialOut st = [] /\ songPlaying st = 0 /\ millis st = 100 * Z.of_nat n.
Proof.
  intros HQ.
  assert (I : idle 0 (boot buttons irqs)).
  { unfold idle. vm_compute. repeat split; try discriminate; auto. }
  destruct (run_idle n 0 _ I) as (st & R & (P & S & _ & _ & M)).
  exists st. repeat split; auto.
Qed.

Lemma silent_without_click_witness :
  exists st,
    run 3 (boot [NoEvent; LongPressStart] [[mkIrq IntB 8]; [mkIrq IntA 12]]) = Ok st
    /\ serialOut st = [] /\ songPlaying st = 0 /\ millis st = 100 * Z.of_nat 3.
Proof.
  apply (silent_without_click 3 [NoEvent; LongPressStart] [[mkIrq IntB 8]; [mkIrq IntA 12]]).
  repeat constructor; discriminate.
Defined.

(** ** The wait loop *)

Lemma delay_irqIn ms st : irqIn (delay ms st) = tail (irqIn st).
Proof.
  pose proof (delay_beyond ms st) as B. unfold beyond_irq in B.
  injection B as _ _ _ _ _ _ _ _ _ B. exact B.
Qed.

Lemma drop_S_tail {A} (n : nat) (l : list A) : drop (S n) l = drop n (tail l).
Proof. destruct l; cbn; [rewrite drop_nil; reflexivity | reflexivity]. Qed.

Lemma pause_loop_rounds ticks st :
  exists rounds,
    (rounds <= ticks)%nat
    /\ millis (pause_loop ticks st) = millis st + 20 * Z.of_nat rounds
    /\ btnIn (pause_loop ticks st) = drop rounds (btnIn st)
    /\ irqIn (pause_loop ticks st) = drop rounds (irqIn st)
    /\ serialOut (pause_loop ticks st) = serialOut st
    /\ lcd (pause_loop ticks st) = lcd st
    /\ ((rounds < ticks)%nat -> songPlaying (pause_loop ticks st) = 0).
Proof.
  revert st. induction ticks as [|ticks IH]; intros st.
  - exists 0%nat. cbn [pause_loop drop]. repeat split; auto; lia.
  - rewrite pause_loop_unfold.
    destruct (poll_io st) as (SO & _ & M & B & _).
    assert (I : irqIn (poll st) = tail (irqIn st)).
    { unfold poll. rewrite delay_irqIn.
      destruct (btnRot_tick_frozen st) as (_ & _ & _ & I & _). rewrite I. reflexivity. }
    assert (L : lcd (poll st) = lcd st).
    { unfold poll. rewrite delay_lcd.
      destruct (btnRot_tick_frozen st) as (F & _). unfold frozen in F. congruence. }
    destruct (Z.eqb_spec (songPlaying (poll st)) 0) as [E|N].
    + exists 1%nat. rewrite !drop_S_tail. cbn [drop].
      repeat split; auto; lia.
    + destruct (IH (poll st)) as (r & R1 & R2 & R3 & R4 & R5 & R6 & R7).
      exists (S r). rewrite !drop_S_tail.
      repeat split; try congruence; try lia; intros H; apply R7; lia.
Qed.

(** X14. [pause()] polls the button once in every tick of 20 ms and does
    nothing else: it returns after some number of rounds, at most the tick
    count, having consumed one button report and one batch of interrupts per
    round and written nothing to the serial line or the display; it returns
    before the full count only with the playback flag cleared. *)
Theorem pause_polls_each_tick (num16ths n : Z) (st : state) :
  delayTicks num16ths (tempo st) = Ok n ->
  exists st' rounds,
    pause num16ths st = Ok st'
    /\ (rounds <= Z.to_nat n)%nat
    /\ millis st' = millis st + 20 * Z.of_nat rounds
    /\ btnIn st' = drop rounds (btnIn st)
    /\ irqIn st' = drop rounds (irqIn st)
    /\ serialOut st' = serialOut st /\ lcd st' = lcd st
    /\ ((rounds < Z.to_nat n)%nat -> songPlaying st' = 0).
Proof.
  intros HN. unfold pause. rewrite HN. cbn [bind].
  destruct (pause_loop_rounds (Z.to_nat n) st) as (r & H).
  exists (pause_loop (Z.to_nat n) st), r. split; [reflexivity | exact H].
Qed.

Lemma pause_polls_each_tick_witness :
  exists st' rounds,
    pause 4 (set_tempo 150 (set_songPlaying 1 (boot [NoEvent; Click] []))) = Ok st'
    /\ (rounds <= Z.to_nat 20)%nat
    /\ millis st' = millis (set_tempo 150 (set_songPlaying 1 (boot [NoEvent; Click] [])))
                    + 20 * Z.of_nat rounds
    /\ btnIn st' = drop rounds (btnIn (set_tempo 150 (set_songPlaying 1 (boot [NoEvent; Click] []))))
    /\ irqIn st' = drop rounds (irqIn (set_tempo 150 (set_songPlaying 1 (boot [NoEvent; Click] []))))
    /\ serialOut st' = serialOut (set_tempo 150 (set_songPlaying 1 (boot [NoEvent; Click] [])))
    /\ lcd st' = lcd (set_tempo 150 (set_songPlaying 1 (boot [NoEvent; Click] [])))
    /\ ((rounds < Z.to_nat 20)%nat -> songPlaying st' = 0).
Proof.
  apply (pause_polls_each_tick 4 20
           (set_tempo 150 (set_songPlaying 1 (boot [NoEvent; Click] [])))).
  reflexivity.
Defined.

(** ** Playback, cancelled or not *)

Lemma playLoop_prefix data st :
  wrap_ulong (tempo st) <> 0 -> has_end data ->
  exists st' k,
    playLoop data st = Ok st'
    /\ (k < length data)%nat
    /\ serialOut st' = serialOut st ++ concat (map byte_wire (take k data))
    /\ Forall (fun b => end_byte b = false) (take k data).
Proof.
  revert st. induction data as [|b0 rest IH]; intros st T HE.
  { inversion HE. }
  cbn [playLoop].
  destruct (processSongData_cases b0 (set_songDataPtr (songDataPtr st + 1) st) T)
    as [(R & _) | (st1 & R & N0 & NC & _ & T1 & _ & _ & _ & S1 & _)].
  - rewrite R. cbn [bind fst snd Z.eqb]. eexists. exists 0%nat.
    split; [reflexivity|]. cbn. rewrite app_nil_r. repeat split; [lia | constructor].
  - rewrite R. cbn [bind fst snd Z.eqb].
    assert (HE' : has_end rest).
    { inversion HE as [? ? Hb|? ? Hr]; subst; [|exact Hr].
      apply end_byte_true in Hb. lia. }
    destruct (IH st1) as (st' & k & L & K & SO & F); [rewrite T1; exact T | exact HE' |].
    exists st', (S k). split; [exact L|]. cbn [length take map concat].
    split; [lia|]. split.
    + rewrite SO, S1. cbn [serialOut set_songDataPtr]. rewrite <- app_assoc. reflexivity.
    + constructor; [apply end_byte_false; auto | exact F].
Qed.

Lemma song_wire_app l r :
  Forall (fun b => end_byte b = false) l ->
  song_wire (l ++ r) = concat (map byte_wire l) ++ song_wire r.
Proof.
  induction 1 as [|b l Hb _ IH]; [reflexivity|].
  cbn [app song_wire map concat]. rewrite Hb, IH, app_assoc. reflexivity.
Qed.

Lemma playSelectedSong_prefix st :
  0 <= songIndex st < SONG_COUNT ->
  exists t data st1 k,
    songData !! Z.to_nat (songIndex st) = Some data
    /\ playSelectedSong st = Ok (leavePlayback st1)
    /\ (k < length data)%nat
    /\ Forall (fun b => end_byte b = false) (take k data)
    /\ serialOut (leavePlayback st1)
       = serialOut st ++ concat (map byte_wire (take k data)) ++ CRLF
    /\ frozen st1 = frozen (enterPlayback t st).
Proof.
  intros HI.
  destruct (playSelectedSong_spec st HI)
    as (t & data & st1 & k0 & b0 & _ & HD & PL & L & R & _ & _ & _ & _ & F & _).
  destruct (playable_spec t data PL) as (_ & TZ & _ & _ & HE).
  destruct (enterPlayback_fields t st) as (F0 & _ & _ & S0 & _).
  assert (T0 : wrap_ulong (tempo (enterPlayback t st)) <> 0).
  { unfold frozen in F0. replace (tempo (enterPlayback t st)) with t by congruence. exact TZ. }
  destruct (playLoop_prefix data (enterPlayback t st) T0 HE) as (st1' & k & L' & K & SO & NE).
  assert (st1' = st1) by congruence. subst st1'.
  destruct (leavePlayback_fields st1) as (_ & _ & L3 & _).
  exists t, data, st1, k.
  split; [exact HD|]. split; [exact R|]. split; [exact K|]. split; [exact NE|].
  split; [|exact F].
  rewrite L3, SO, S0, <- app_assoc. reflexivity.
Qed.

(** X15. However playback ends, it ends in selection mode and has sent a
    prefix of the song: for a catalog song and any button and encoder input
    [playSelectedSong()] returns with the flag cleared, rotation enabled and
    the selection headline on row 0.  What it has written to the serial line
    is the text of the first [k] bytes of the song, none of them an end
    byte, in order, then the line end; this text is the beginning of the
    text of the song played to its end. *)
Theorem playback_sends_a_prefix (st : state) :
  0 <= songIndex st < SONG_COUNT ->
  exists st' data k later,
    songData !! Z.to_nat (songIndex st) = Some data
    /\ playSelectedSong st = Ok st'
    /\ (k < length data)%nat
    /\ Forall (fun b => end_byte b = false) (take k data)
    /\ serialOut st' = serialOut st ++ concat (map byte_wire (take k data)) ++ CRLF
    /\ song_wire data = concat (map byte_wire (take k data)) ++ later
    /\ songPlaying st' = 0 /\ rotaryDisabled st' = 0
    /\ (lcd_ready (lcd st) -> lcdText (lcd st') !! 0%nat = Some top_line_selecting).
Proof.
  intros HI.
  destruct (playSelectedSong_prefix st HI) as (t & data & st1 & k & HD & R & K & NE & SO & F).
  destruct (enterPlayback_fields t st) as (F0 & _).
  destruct (leavePlayback_fields st1) as (L1 & L2 & _ & L4 & _).
  exists (leavePlayback st1), data, k, (song_wire (drop k data)).
  split; [exact HD|]. split; [exact R|]. split; [exact K|]. split; [exact NE|].
  split; [exact SO|].
  split.
  { rewrite <- (song_wire_app _ _ NE), take_drop. reflexivity. }
  split; [exact L1|]. split; [exact L2|].
  intros (row0 & row1 & HT & L0 & _). rewrite L4.
  rewrite F0 in F. unfold frozen in F.
  assert (HL : lcd st1 = lcd_print "--- Playing  ---" (lcd_setCursor 0 0 (lcd st)))
    by congruence.
  rewrite (headline_text "Select a Song   " (lcd st1) top_line_playing row1);
    [reflexivity | reflexivity | | reflexivity].
  rewrite HL. apply (headline_text "--- Playing  ---" (lcd st) row0 row1);
    [reflexivity | exact HT | exact L0].
Qed.

Lemma playback_sends_a_prefix_witness :
  exists st' data k later,
    songData !! Z.to_nat (songIndex (set_songPlaying 1 (boot [NoEvent; Click] []))) = Some data
    /\ playSelectedSong (set_songPlaying 1 (boot [NoEvent; Click] [])) = Ok st'
    /\ (k < length data)%nat
    /\ Forall (fun b => end_byte b = false) (take k data)
    /\ serialOut st' = serialOut (set_songPlaying 1 (boot [NoEvent; Click] []))
                       ++ concat (map byte_wire (take k data)) ++ CRLF
    /\ song_wire data = concat (map byte_wire (take k data)) ++ later
    /\ songPlaying st' = 0 /\ rotaryDisabled st' = 0
    /\ (lcd_ready (lcd (set_songPlaying 1 (boot [NoEvent; Click] []))) ->
        lcdText (lcd st') !! 0%nat = Some top_line_selecting).
Proof.
  apply (playback_sends_a_prefix (set_songPlaying 1 (boot [NoEvent; Click] []))).
  vm_compute. split; [discriminate | reflexivity].
Defined.

(** ** The song heard is the song shown *)

Lemma printSelectedSong_serialOut st st' :
  (if negb (rotaryChanged st =? 0) then printSelectedSong st else Ok st) = Ok st' ->
  serialOut st' = serialOut st.
Proof.
  destruct (negb (rotaryChanged st =? 0)); [|intros [= <-]; reflexivity].
  unfold printSelectedSong. cbv zeta.
  destruct (pgm_read songTitles _) as [title|]; [|discriminate].
  cbn [bind]. intros [= <-]. rewrite lcdPrintProgStr_on_lcd. reflexivity.
Qed.

(** X20. The song heard is the song shown.  In a round of [loop()] that
    starts with the playback flag set, at any time after [setup()] and
    whatever the button and the encoder did before, the display shows the
    title of song [songIndex] and the round sends the text of the first [k]
    bytes of the data of that same song, none of them an end byte, and the
    line end, and nothing else; a selection changed but not yet displayed
    is not the one played. *)
Theorem song_heard_is_song_shown (n : nat) (buttons : list ButtonEvent)
        (irqs : list (list Irq)) (st : state) :
  run (S n) (boot buttons irqs) = Ok st -> songPlaying st <> 0 ->
  exists st' title data k,
    loop st = Ok st'
    /\ songTitles !! Z.to_nat (songIndex st) = Some title
    /\ lcdText (lcd st) = [top_line_selecting; title_row title]
    /\ songData !! Z.to_nat (songIndex st) = Some data
    /\ (k < length data)%nat
    /\ Forall (fun b => end_byte b = false) (take k data)
    /\ serialOut st' = serialOut st ++ concat (map byte_wire (take k data)) ++ CRLF.
Proof.
  intros R HP.
  destruct (run_between_rounds n (boot buttons irqs) (boot_between_rounds buttons irqs))
    as (st0 & R0 & HB & (title & T1 & T2)).
  assert (st0 = st) by congruence. subst st0.
  pose proof HB as ((_ & HI) & _).
  destruct (playSelectedSong_prefix st) as (t & data & st1 & k & D & P & K & NE & SO & _);
    [unfold SONG_COUNT in *; lia|].
  destruct (between_rounds_play st HB) as (sa' & PA & HA).
  destruct (between_rounds_print sa' HA) as (sb & PB & _).
  pose proof (printSelectedSong_serialOut sa' sb PB) as SB.
  destruct (btnRot_tick_frozen sb) as (_ & ST & _).
  exists (delay 100 (btnRot_tick sb)), title, data, k.
  split; [unfold loop; rewrite PA; cbn [bind]; rewrite PB; reflexivity|].
  split; [exact T1|]. split; [exact T2|]. split; [exact D|]. split; [exact K|].
  split; [exact NE|].
  rewrite delay_serialOut, ST, SB.
  destruct (Z.eqb_spec (songPlaying st) 0) as [E|_]; [contradiction|].
  cbn [negb] in PA. assert (sa' = leavePlayback st1) by congruence. subst sa'. exact SO.
Qed.

Lemma song_heard_is_song_shown_witness :
  exists st,
    run 1 (boot [Click] [[mkIrq IntB 8; mkIrq IntA 12]]) = Ok st
    /\ songPlaying st <> 0
    /\ exists st' title data k,
         loop st = Ok st'
         /\ songTitles !! Z.to_nat (songIndex st) = Some title
         /\ lcdText (lcd st) = [top_line_selecting; title_row title]
         /\ songData !! Z.to_nat (songIndex st) = Some data
         /\ (k < length data)%nat
         /\ Forall (fun b => end_byte b = false) (take k data)
         /\ serialOut st' = serialOut st ++ concat (map byte_wire (take k data)) ++ CRLF.
Proof.
  eexists. split; [vm_compute; reflexivity|]. split; [vm_compute; discriminate|].
  apply (song_heard_is_song_shown 0 [Click] [[mkIrq IntB 8; mkIrq IntA 12]]);
    [vm_compute; reflexivity | vm_compute; discriminate].
Defined.
